(** * Scanner_Parser.py: a scanner and a recursive-descent recogniser

    A shallow embedding of [src/Scanner_Parser.py].

    Strings are [String.string]; a character is a code point below 256.
    Python's [re] module is modelled by a small backtracking matcher over
    a regular-expression syntax tree ([Module Re]); the scanner's table
    [token_specification] is transcribed pattern by pattern.  The parser
    is embedded with an explicit cursor [pos] and a result type that
    carries raised exceptions, first with a budget on its recursion
    ([Module Parser]) and then on a call stack of bounded depth
    ([Module Stack]), where a call too many raises [RecursionError]. *)

From Stdlib Require Import String Ascii List Bool Arith Lia ZArith.
Import ListNotations.
Open Scope string_scope.

(** ** Python's [re]: syntax and backtracking matcher *)
Module Re.

(** One entry of a character class.  [Digit] is [\d] and [Word] is [\w]
    of a [str] pattern (the Unicode-aware classes, here on code points
    below 256). *)
Inductive item : Type :=
| Ch (c : ascii)
| Range (lo hi : ascii)
| Digit
| Word.

Definition code (c : ascii) : nat := nat_of_ascii c.

Definition between (lo hi : nat) (c : ascii) : bool :=
  (lo <=? code c)%nat && (code c <=? hi)%nat.

(** [\d]: the decimal digits; below 256 these are "0".."9" only. *)
Definition is_digit (c : ascii) : bool := between 48 57 c.

(** Code points 128..255 that [str.isalnum] accepts (letters of Latin-1,
    the superscript digits and the vulgar fractions). *)
Definition latin1_alnum (c : ascii) : bool :=
  existsb (Nat.eqb (code c)) [170; 178; 179; 181; 185; 186; 188; 189; 190]
  || between 192 214 c || between 216 246 c || between 248 255 c.

(** [\w]: alphanumeric or underscore. *)
Definition is_word (c : ascii) : bool :=
  between 97 122 c || between 65 90 c || is_digit c
  || Ascii.eqb c "_" || latin1_alnum c.

Definition item_matches (i : item) (c : ascii) : bool :=
  match i with
  | Ch c' => Ascii.eqb c' c
  | Range lo hi => between (code lo) (code hi) c
  | Digit => is_digit c
  | Word => is_word c
  end.

Inductive regex : Type :=
| Eps
| Cls (items : list item)               (* [...] or a single character *)
| Seq (r1 r2 : regex)
| Alt (r1 r2 : regex)                   (* r1|r2, r1 tried first *)
| Star (r : regex)                      (* greedy r* *)
| Group (name : option string) (r : regex).  (* (r) or (?P<name>r) *)

Definition Lit (c : ascii) : regex := Cls [Ch c].
Definition Plus (r : regex) : regex := Seq r (Star r).   (* greedy r+ *)
Definition Opt (r : regex) : regex := Alt r Eps.          (* greedy r? *)

Fixpoint Str (s : string) : regex :=
  match s with
  | "" => Eps
  | String c "" => Lit c
  | String c s' => Seq (Lit c) (Str s')
  end.

(** [a|b|c] from the list of its alternatives. *)
Fixpoint alternatives (rs : list regex) : regex :=
  match rs with
  | [] => Eps
  | [r] => r
  | r :: rs' => Alt r (alternatives rs')
  end.

Definition in_class (items : list item) (c : ascii) : bool :=
  existsb (fun i => item_matches i c) items.

(** The state of a match attempt: the text still to read and the name
    of the group that closed last ([lastgroup]); a failed branch gives
    [None] and the matcher backtracks to the next choice. *)
Definition cont : Type := string -> option string -> option (option string * string).

Definition answer : Type := option (option string * string).

(** Greedy repetition of [body]: try one more iteration, then the rest
    of the pattern; an iteration that reads nothing ends the loop. *)
Fixpoint star_loop (body : string -> option string -> cont -> answer) (k : cont)
  (n : nat) (s : string) (lg : option string) {struct n} : answer :=
  match n with
  | 0 => k s lg
  | S n' =>
      match body s lg
              (fun s' lg' =>
                 if (String.length s' <? String.length s)%nat
                 then star_loop body k n' s' lg' else None)
      with
      | Some m => Some m
      | None => k s lg
      end
  end.

Fixpoint exec (r : regex) (s : string) (lg : option string) (k : cont)
  {struct r} : answer :=
  match r with
  | Eps => k s lg
  | Cls items =>
      match s with
      | String c s' => if in_class items c then k s' lg else None
      | "" => None
      end
  | Seq r1 r2 => exec r1 s lg (fun s' lg' => exec r2 s' lg' k)
  | Alt r1 r2 =>
      match exec r1 s lg k with
      | Some m => Some m
      | None => exec r2 s lg k
      end
  | Star r' => star_loop (exec r') k (String.length s) s lg
  | Group name r' => exec r' s lg (fun s' _ => k s' name)
  end.

(** [pattern.match] at the start of [s]: the last group and the rest. *)
Definition match_at (r : regex) (s : string) : option (option string * string) :=
  exec r s None (fun s' lg => Some (lg, s')).

(** A match object, as far as [tokenize] reads it. *)
Record Match : Type := { lastgroup : option string; group : string }.

(** [re.finditer]: scan left to right; where the pattern does not match
    the scan moves on by one character.  Each step shortens the text, so
    [fuel] above its length is never used up. *)
Fixpoint finditer_fuel (fuel : nat) (r : regex) (s : string)
  : option (list Match) :=
  match fuel with
  | 0 => None
  | S fuel' =>
      match match_at r s with
      | Some (lg, rest) =>
          let mo := {| lastgroup := lg;
                       group := substring 0 (String.length s - String.length rest) s |} in
          if (String.length rest <? String.length s)%nat
          then option_map (cons mo) (finditer_fuel fuel' r rest)
          else (* an empty match, which [token_regex] never gives (see
                  [match_nonempty]): yield it and step over one character *)
            match s with
            | "" => Some [mo]
            | String _ s' => option_map (cons mo) (finditer_fuel fuel' r s')
            end
      | None =>
          match s with
          | "" => Some []
          | String _ s' => finditer_fuel fuel' r s'
          end
      end
  end.

Definition finditer (r : regex) (s : string) : list Match :=
  match finditer_fuel (S (String.length s)) r s with
  | Some ms => ms
  | None => []
  end.

(** Can [r] match the empty text; can a match of [r] start with [c]. *)
Fixpoint nullable (r : regex) : bool :=
  match r with
  | Eps => true
  | Cls _ => false
  | Seq r1 r2 => nullable r1 && nullable r2
  | Alt r1 r2 => nullable r1 || nullable r2
  | Star _ => true
  | Group _ r' => nullable r'
  end.

Fixpoint first (r : regex) (c : ascii) : bool :=
  match r with
  | Eps => false
  | Cls items => in_class items c
  | Seq r1 r2 => first r1 c || (nullable r1 && first r2 c)
  | Alt r1 r2 => first r1 c || first r2 c
  | Star r' => first r' c
  | Group _ r' => first r' c
  end.

(** [suffix t s]: [t] is what remains of [s] after some characters. *)
Inductive suffix (t : string) : string -> Prop :=
| suffix_here : suffix t t
| suffix_later c s : suffix t s -> suffix t (String c s).

End Re.

(** ** The scanner *)
Module Scanner.
Import Re.

Definition token : Type := (string * string)%type.

Record t : Type := { code : string; tokens : list token }.

Definition keywords : list string :=
  ["int"; "float"; "double"; "bool"; "if"; "else"; "while";
   "for"; "true"; "false"; "return"; "main"].

Definition token_specification : list (string * regex) :=
  [ ("NUMBER", Seq (Plus (Cls [Digit]))
                   (Opt (Group None (Seq (Lit ".") (Star (Cls [Digit]))))));
    ("ID", Seq (Cls [Range "A" "Z"; Range "a" "z"; Ch "_"]) (Star (Cls [Word])));
    ("OP", alternatives
             [Str "=="; Str "!="; Str "<="; Str ">="; Str "&&"; Str "||";
              Str "++"; Str "--";
              Cls [Ch "+"; Ch "-"; Ch "*"; Ch "/"; Ch "%"; Ch "="; Ch "<"; Ch ">"]]);
    ("SEMI", Lit ";");
    ("LPAREN", Lit "(");
    ("RPAREN", Lit ")");
    ("LBRACE", Lit "{");
    ("RBRACE", Lit "}");
    ("SKIP", Plus (Cls [Ch " "; Ch "009"]));
    ("NEWLINE", Lit "010") ].

Definition token_regex : regex :=
  alternatives
    (map (fun '(name, regex) => Group (Some name) regex) token_specification).

Definition init (code : string) : t := {| code := code; tokens := [] |}.

Definition mem (x : string) (l : list string) : bool := existsb (String.eqb x) l.

(** The body of the [for mo in ...] loop, folded over the matches. *)
Fixpoint tokenize_loop (ms : list Match) (tokens : list token) : list token :=
  match ms with
  | [] => tokens
  | mo :: ms' =>
      match lastgroup mo with
      | Some kind =>
          let value := group mo in
          if (kind =? "ID") && mem value keywords
          then tokenize_loop ms' (tokens ++ [("KEYWORD", value)])
          else if mem kind ["SKIP"; "NEWLINE"]
               then tokenize_loop ms' tokens
               else tokenize_loop ms' (tokens ++ [(kind, value)])
      | None =>
          (* every alternative of [token_regex] is a named group, so a
             match always has a [lastgroup]: see [lastgroup_named] *)
          tokenize_loop ms' tokens
      end
  end.

Definition tokenize (self : t) : list token :=
  tokenize_loop (finditer token_regex (code self)) (tokens self).

(** [Scanner(code).tokenize()] *)
Definition scan (code : string) : list token := tokenize (init code).

End Scanner.

(** ** Python values as text: [repr] of a string and of a pair *)
Module Py.
Import Re.

Definition squote : ascii := "039"%char.
Definition dquote : ascii := "034"%char.
Definition backslash : ascii := "092"%char.

Fixpoint contains (c : ascii) (s : string) : bool :=
  match s with
  | "" => false
  | String c' s' => Ascii.eqb c c' || contains c s'
  end.

(** [str.isprintable] on one code point below 256. *)
Definition printable (c : ascii) : bool :=
  negb ((code c <? 32)%nat || between 127 160 c || (code c =? 173)%nat).

Definition hexdigit (n : nat) : ascii :=
  nth n ["0"; "1"; "2"; "3"; "4"; "5"; "6"; "7"; "8"; "9";
         "a"; "b"; "c"; "d"; "e"; "f"]%char "0"%char.

Definition repr_char (quote c : ascii) : string :=
  if Ascii.eqb c quote || Ascii.eqb c backslash then String backslash (String c "")
  else if Ascii.eqb c "009" then String backslash "t"
  else if Ascii.eqb c "010" then String backslash "n"
  else if Ascii.eqb c "013" then String backslash "r"
  else if printable c then String c ""
  else String backslash
         (String "x" (String (hexdigit (code c / 16))
                        (String (hexdigit (code c mod 16)) ""))).

Fixpoint repr_chars (quote : ascii) (s : string) : string :=
  match s with
  | "" => ""
  | String c s' => repr_char quote c ++ repr_chars quote s'
  end.

(** [repr(s)]: single quotes, unless [s] holds a single quote and no
    double quote. *)
Definition repr_str (s : string) : string :=
  let quote := if contains squote s && negb (contains dquote s)
               then dquote else squote in
  String quote (repr_chars quote s ++ String quote "").

(** [str((a, b))] for a pair of strings, as an f-string renders it. *)
Definition repr_pair (p : string * string) : string :=
  "(" ++ repr_str (fst p) ++ ", " ++ repr_str (snd p) ++ ")".

(** [l[i]] with Python's negative indices; [None] is [IndexError]. *)
Definition getitem {A : Type} (l : list A) (i : Z) : option A :=
  let n := Z.of_nat (List.length l) in
  if ((0 <=? i) && (i <? n))%Z then nth_error l (Z.to_nat i)
  else if ((- n <=? i) && (i <? 0))%Z then nth_error l (Z.to_nat (n + i))
  else None.

End Py.

(** ** The parser *)
Module Parser.
Import Scanner.

Inductive exn : Type :=
| SyntaxError (msg : string)
| IndexError.

(** What a method call does: return [a] with the cursor at [pos], raise,
    or exceed the model's recursion budget. *)
Inductive result (A : Type) : Type :=
| Ok (a : A) (pos : nat)
| Raise (e : exn)
| OutOfFuel.
Arguments Ok {A} a pos.
Arguments Raise {A} e.
Arguments OutOfFuel {A}.

(** A method of [Parser]: it reads and updates [self.pos]. *)
Definition M (A : Type) : Type := nat -> result A.

Definition ret {A} (a : A) : M A := fun pos => Ok a pos.
Definition bind {A B} (m : M A) (k : A -> M B) : M B :=
  fun pos =>
    match m pos with
    | Ok a pos' => k a pos'
    | Raise e => Raise e
    | OutOfFuel => OutOfFuel
    end.
Definition raise {A} (msg : string) : M A := fun _ => Raise (SyntaxError msg).
Definition timeout {A} : M A := fun _ => OutOfFuel.

Notation "x <- m ;; k" := (bind m (fun x => k))
  (at level 61, m at next level, right associativity).
Notation "m ;;; k" := (bind m (fun _ => k))
  (at level 61, right associativity).

(** [a and b] on two calls: [b] runs only when [a] returned [True]. *)
Definition and_ (a b : M bool) : M bool :=
  x <- a ;; if x then b else ret false.

Section Rules.
Variable tokens : list token.

Definition peek_at (pos : nat) : token :=
  if (pos <? List.length tokens)%nat then nth pos tokens ("EOF", "") else ("EOF", "").

Definition peek : M token := fun pos => Ok (peek_at pos) pos.

Definition advance : M unit := fun pos => Ok tt (pos + 1).

Definition match_ (expected_type : string) (expected_value : option string) : M bool :=
  tok <- peek ;;
  let '(tok_type, tok_val) := tok in
  if (tok_type =? expected_type)
     && match expected_value with None => true | Some v => tok_val =? v end
  then advance ;;; ret true
  else ret false.

(** [self.tokens[self.pos - 1]] *)
Definition previous : M token :=
  fun pos =>
    match Py.getitem tokens (Z.of_nat pos - 1) with
    | Some tok => Ok tok pos
    | None => Raise IndexError
    end.

Definition binary_operators : list string :=
  ["+"; "-"; "*"; "/"; "%"; "||"; "&&"; "=="; "!="; "<"; "<="; ">"; ">="].

Fixpoint expression (fuel : nat) : M unit :=
  match fuel with
  | 0 => timeout
  | S fuel =>
      term fuel ;;;
      expression_while fuel
  end
with expression_while (fuel : nat) : M unit :=
  match fuel with
  | 0 => timeout
  | S fuel =>
      b <- match_ "OP" None ;;
      if b then
        tok <- previous ;;
        if mem (snd tok) binary_operators
        then term fuel ;;; expression_while fuel
        else ret tt
      else ret tt
  end
with term (fuel : nat) : M unit :=
  match fuel with
  | 0 => timeout
  | S fuel =>
      tok <- peek ;;
      if mem (fst tok) ["NUMBER"; "ID"; "KEYWORD"] then advance
      else
        b <- match_ "LPAREN" None ;;
        if b then
          expression fuel ;;;
          b' <- match_ "RPAREN" None ;;
          if negb b' then raise "Missing closing parenthesis" else ret tt
        else
          tok' <- peek ;;
          raise ("Unexpected token in term: " ++ Py.repr_pair tok')
  end.

Definition declaration (fuel : nat) : M bool :=
  advance ;;;
  b <- match_ "ID" None ;;
  if b then
    b1 <- match_ "OP" (Some "=") ;;
    (if b1 then expression fuel else ret tt) ;;;
    b2 <- match_ "SEMI" None ;;
    if b2 then ret true else ret false
  else ret false.

Definition assignment (fuel : nat) : M bool :=
  advance ;;;
  b <- match_ "OP" (Some "=") ;;
  if b then
    expression fuel ;;;
    b' <- match_ "SEMI" None ;;
    if b' then ret true else ret false
  else ret false.

Definition return_statement (fuel : nat) : M bool :=
  advance ;;;
  expression fuel ;;;
  b <- match_ "SEMI" None ;;
  if negb b then raise "Missing ';' after return" else ret true.

Fixpoint statement (fuel : nat) : M bool :=
  match fuel with
  | 0 => timeout
  | S fuel =>
      tok <- peek ;;
      let '(tok_type, tok_val) := tok in
      if (tok_type =? "KEYWORD") && mem tok_val ["int"; "float"; "double"; "bool"]
      then declaration fuel
      else if tok_type =? "ID" then assignment fuel
      else if (tok_type =? "KEYWORD") && (tok_val =? "if") then if_statement fuel
      else if (tok_type =? "KEYWORD") && (tok_val =? "while") then while_loop fuel
      else if (tok_type =? "KEYWORD") && (tok_val =? "for") then for_loop fuel
      else if (tok_type =? "KEYWORD") && (tok_val =? "return") then return_statement fuel
      else ret false
  end
with if_statement (fuel : nat) : M bool :=
  match fuel with
  | 0 => timeout
  | S fuel =>
      advance ;;;
      b <- match_ "LPAREN" None ;;
      if negb b then raise "Missing '(' after if" else
      expression fuel ;;;
      b <- match_ "RPAREN" None ;;
      if negb b then raise "Missing ')' after if condition" else
      b <- block fuel ;;
      if negb b then raise "Missing block after if" else
      b <- match_ "KEYWORD" (Some "else") ;;
      (if b then
         b' <- block fuel ;;
         if negb b' then raise "Missing block after else" else ret tt
       else ret tt) ;;;
      ret true
  end
with while_loop (fuel : nat) : M bool :=
  match fuel with
  | 0 => timeout
  | S fuel =>
      advance ;;;
      b <- match_ "LPAREN" None ;;
      if negb b then raise "Missing '(' after while" else
      expression fuel ;;;
      b <- match_ "RPAREN" None ;;
      if negb b then raise "Missing ')' after while condition" else
      b <- block fuel ;;
      if negb b then raise "Missing block after while" else
      ret true
  end
with for_loop (fuel : nat) : M bool :=
  match fuel with
  | 0 => timeout
  | S fuel =>
      advance ;;;
      b <- match_ "LPAREN" None ;;
      if negb b then raise "Missing '(' after for" else
      statement fuel ;;;
      expression fuel ;;;
      match_ "SEMI" None ;;;
      assignment fuel ;;;
      b <- match_ "RPAREN" None ;;
      if negb b then raise "Missing ')' after for loop" else
      b <- block fuel ;;
      if negb b then raise "Missing block after for" else
      ret true
  end
with block (fuel : nat) : M bool :=
  match fuel with
  | 0 => timeout
  | S fuel =>
      b <- match_ "LBRACE" None ;;
      if b then block_while fuel ;;; ret true
      else ret false
  end
with block_while (fuel : nat) : M unit :=
  match fuel with
  | 0 => timeout
  | S fuel =>
      b <- match_ "RBRACE" None ;;
      if negb b then
        b' <- statement fuel ;;
        if negb b' then
          tok <- peek ;;
          raise ("Invalid statement in block: " ++ Py.repr_pair tok)
        else block_while fuel
      else ret tt
  end.

(** The [while self.pos < len(self.tokens)] loop of [parse]. *)
Fixpoint parse_while (fuel : nat) : M unit :=
  match fuel with
  | 0 => timeout
  | S fuel =>
      fun pos =>
        if (pos <? List.length tokens)%nat then
          (b <- statement fuel ;;
           if negb b then
             tok <- peek ;;
             raise ("Unexpected token: " ++ Py.repr_pair tok)
           else parse_while fuel) pos
        else Ok tt pos
  end.

(** The four matches that open [parse], joined by [and]. *)
Definition main_prologue : M bool :=
  and_ (match_ "KEYWORD" (Some "int"))
    (and_ (match_ "KEYWORD" (Some "main"))
       (and_ (match_ "LPAREN" None) (match_ "RPAREN" None))).

(** The body of the [try] in [parse]. *)
Definition parse_try (fuel : nat) : M unit :=
  b <- main_prologue ;;
  (if b then
     b' <- block fuel ;;
     if negb b' then raise "Missing block after main()" else ret tt
   else ret tt) ;;;
  parse_while fuel.

End Rules.

(** What the caller of [parse] observes. *)
Inductive outcome : Type :=
| Accepted                       (* prints "Code accepted." *)
| Rejected (msg : string).       (* prints "Syntax error:" and [msg] *)

Inductive run : Type :=
| Printed (o : outcome)
| Uncaught (e : exn)
| Timeout.

Definition stdout (o : outcome) : string :=
  match o with
  | Accepted => "Code accepted."
  | Rejected msg => "Syntax error: " ++ msg
  end.

(** [try: ... print("Code accepted.") except SyntaxError as e: ...] *)
Definition finish (r : result unit) : run :=
  match r with
  | Ok _ _ => Printed Accepted
  | Raise (SyntaxError msg) => Printed (Rejected msg)
  | Raise e => Uncaught e
  | OutOfFuel => Timeout
  end.

(** [parse], the cursor starting at 0. *)
Definition parse_fuel (fuel : nat) (tokens : list token) : run :=
  finish (parse_try tokens fuel 0).

(** Recursion budget that every token list stays within
    (see [parse_fuel_enough]).  It makes the rules structural and grows
    with the tokens; the bound that Python itself puts on nested calls
    does not, and is the subject of [Module Stack], whose [parse] prints
    the verdict of this one when the stack has room
    (see [StackFacts.parse_outcome]). *)
Definition budget (tokens : list token) : nat := 2 * List.length tokens + 4.

Definition parse (tokens : list token) : run := parse_fuel (budget tokens) tokens.

End Parser.

(** ** The rules as functions of the cursor alone *)
Module Run.
Import Scanner Parser.

(** A budget that covers any rule entered at [pos]; like [budget] it
    bounds the recursion of the definitions, not the call stack. *)
Definition fuel_at (tokens : list token) (pos : nat) : nat :=
  2 * (List.length tokens - pos) + 4.

Definition term (tokens : list token) : M unit :=
  fun pos => Parser.term tokens (fuel_at tokens pos) pos.

Definition expression_while (tokens : list token) : M unit :=
  fun pos => Parser.expression_while tokens (fuel_at tokens pos) pos.

Definition statement (tokens : list token) : M bool :=
  fun pos => Parser.statement tokens (fuel_at tokens pos) pos.

(** The top-level loop of [parse] entered at [pos], and what [parse]
    prints when the loop ends. *)
Definition toplevel (tokens : list token) (pos : nat) : run :=
  finish (parse_while tokens (budget tokens) pos).

End Run.

(** ** Vocabulary of the statements *)
Module Spec.
Import Re Scanner Parser.

(** What one match adds to [self.tokens]. *)
Definition emitted (kind value : string) : list token :=
  if (kind =? "ID") && mem value keywords then [("KEYWORD", value)]
  else if mem kind ["SKIP"; "NEWLINE"] then []
  else [(kind, value)].

Definition named (r : string * regex) : regex :=
  let '(name, regex) := r in Group (Some name) regex.

(** Texts of spaces, tabs and newlines. *)
Definition is_blank (c : ascii) : bool :=
  Ascii.eqb c " " || Ascii.eqb c "009" || Ascii.eqb c "010".

Fixpoint whitespace_only (s : string) : bool :=
  match s with
  | "" => true
  | String c s' => is_blank c && whitespace_only s'
  end.

(** Does a message speak of the semicolon: by the character or by the
    name of its token kind. *)
Fixpoint occurs (sub s : string) : bool :=
  String.prefix sub s
  || match s with
     | "" => false
     | String _ s' => occurs sub s'
     end.

Definition references_semicolon (msg : string) : bool :=
  occurs ";" msg || occurs "SEMI" msg.

(** The four tokens that open a program with a main block. *)
Definition prologue_pattern : list (string * option string) :=
  [("KEYWORD", Some "int"); ("KEYWORD", Some "main"); ("LPAREN", None); ("RPAREN", None)].

Definition fits (expected : string * option string) (tok : token) : bool :=
  (fst tok =? fst expected)
  && match snd expected with None => true | Some v => snd tok =? v end.

(** How many leading entries of [pattern] the tokens from [pos] on fit. *)
Fixpoint matched_prefix (pattern : list (string * option string))
  (tokens : list token) (pos : nat) : nat :=
  match pattern with
  | [] => 0
  | expected :: pattern' =>
      if fits expected (peek_at tokens pos)
      then S (matched_prefix pattern' tokens (pos + 1))
      else 0
  end.

(** [ensures r Q]: the call returned normally with [Q], or raised
    [SyntaxError]; it neither ran out of budget nor raised anything else. *)
Definition ensures {A} (r : result A) (Q : A -> nat -> Prop) : Prop :=
  match r with
  | Ok a pos => Q a pos
  | Raise (SyntaxError _) => True
  | Raise IndexError => False
  | OutOfFuel => False
  end.

(** [extends m m']: where [m] finishes, [m'] gives the same result. *)
Definition extends {A} (m m' : M A) : Prop :=
  forall pos, m pos <> OutOfFuel -> m' pos = m pos.

End Spec.

(** ** Vocabulary of the further properties *)
Module Shape.
Import Re Scanner Parser.

(** The messages that the rules raise as they stand in the source. *)
Definition fixed_messages : list string :=
  ["Missing block after main()"; "Missing closing parenthesis";
   "Missing '(' after if"; "Missing ')' after if condition";
   "Missing block after if"; "Missing block after else";
   "Missing '(' after while"; "Missing ')' after while condition";
   "Missing block after while";
   "Missing '(' after for"; "Missing ')' after for loop";
   "Missing block after for"; "Missing ';' after return"].

(** A message of the parser over [tokens]: a fixed one, or one that shows
    the token under the cursor at some position. *)
Definition known_message (tokens : list token) (msg : string) : Prop :=
  In msg fixed_messages
  \/ exists pos,
      In msg ["Unexpected token: " ++ Py.repr_pair (peek_at tokens pos);
              "Unexpected token in term: " ++ Py.repr_pair (peek_at tokens pos);
              "Invalid statement in block: " ++ Py.repr_pair (peek_at tokens pos)].

(** [meets tokens r Q]: if the call returned, [Q] holds of its value and
    cursor; if it raised, it raised [SyntaxError] with a known message. *)
Definition meets {A} (tokens : list token) (r : result A)
  (Q : A -> nat -> Prop) : Prop :=
  match r with
  | Ok a pos => Q a pos
  | Raise (SyntaxError msg) => known_message tokens msg
  | Raise IndexError => False
  | OutOfFuel => True
  end.

(** The kind of the token under the cursor. *)
Definition kind_at (tokens : list token) (pos : nat) : string :=
  fst (peek_at tokens pos).

Definition type_keywords : list string := ["int"; "float"; "double"; "bool"].

(** The kinds that [term] takes as an operand. *)
Definition atoms : list string := ["NUMBER"; "ID"; "KEYWORD"].

End Shape.

(** ** The language of a pattern *)
Module Lang.
Import Re Scanner.

(** [matches r w]: the text [w] as a whole fits the pattern [r]. *)
Inductive matches : regex -> string -> Prop :=
| matches_eps : matches Eps ""
| matches_cls items c : in_class items c = true -> matches (Cls items) (String c "")
| matches_seq r1 r2 w1 w2 :
    matches r1 w1 -> matches r2 w2 -> matches (Seq r1 r2) (w1 ++ w2)
| matches_alt_l r1 r2 w : matches r1 w -> matches (Alt r1 r2) w
| matches_alt_r r1 r2 w : matches r2 w -> matches (Alt r1 r2) w
| matches_star_nil r : matches (Star r) ""
| matches_star_cons r w1 w2 :
    matches r w1 -> matches (Star r) w2 -> matches (Star r) (w1 ++ w2)
| matches_group name r w : matches r w -> matches (Group name r) w.

(** Every character of [s] is in the class. *)
Fixpoint all_in (items : list item) (s : string) : bool :=
  match s with
  | "" => true
  | String c s' => in_class items c && all_in items s'
  end.

(** [s] without its longest prefix of characters of the class. *)
Fixpoint skip_class (items : list item) (s : string) : string :=
  match s with
  | "" => ""
  | String c s' => if in_class items c then skip_class items s' else s
  end.

(** Does [s] start with a character of the class. *)
Definition starts_in (items : list item) (s : string) : bool :=
  match s with
  | "" => false
  | String c _ => in_class items c
  end.

Definition letters : list item := [Range "A" "Z"; Range "a" "z"; Ch "_"].

Definition is_identifier (s : string) : bool :=
  match s with
  | "" => false
  | String c w => in_class letters c && all_in [Word] w
  end.

(** Digits, then perhaps a dot and digits. *)
Definition is_number (s : string) : bool :=
  starts_in [Digit] s
  && match skip_class [Digit] s with
     | "" => true
     | String c r => Ascii.eqb c "." && all_in [Digit] r
     end.

(** What rule NUMBER leaves of the text after a first digit: the digits
    are read, and after them a dot with the digits that follow it. *)
Definition number_rest (s : string) : string :=
  match skip_class [Digit] s with
  | "" => ""
  | String c r =>
      if in_class [Ch "."] c then skip_class [Digit] r else String c r
  end.

Definition operators : list string :=
  ["=="; "!="; "<="; ">="; "&&"; "||"; "++"; "--";
   "+"; "-"; "*"; "/"; "%"; "="; "<"; ">"].

Definition token_kinds : list string :=
  ["NUMBER"; "ID"; "KEYWORD"; "OP"; "SEMI"; "LPAREN"; "RPAREN"; "LBRACE"; "RBRACE"].

(** A token of one of the nine kinds with a lexeme of the shape of its
    kind. *)
Definition well_formed (tok : token) : bool :=
  let '(kind, lex) := tok in
  if kind =? "NUMBER" then is_number lex
  else if kind =? "ID" then is_identifier lex && negb (mem lex keywords)
  else if kind =? "KEYWORD" then mem lex keywords
  else if kind =? "OP" then mem lex operators
  else if kind =? "SEMI" then lex =? ";"
  else if kind =? "LPAREN" then lex =? "("
  else if kind =? "RPAREN" then lex =? ")"
  else if kind =? "LBRACE" then lex =? "{"
  else if kind =? "RBRACE" then lex =? "}"
  else false.

(** The scanner after a call of [tokenize]: [self.tokens] is the list
    that the call returned. *)
Definition after_tokenize (self : Scanner.t) : Scanner.t :=
  {| code := code self; tokens := tokenize self |}.

End Lang.

(** ** Lines of text *)
Module Lines.
Import Re Scanner.

(** No class of the pattern accepts the character [c]. *)
Fixpoint avoids (c : ascii) (r : regex) : bool :=
  match r with
  | Eps => true
  | Cls items => negb (in_class items c)
  | Seq r1 r2 => avoids c r1 && avoids c r2
  | Alt r1 r2 => avoids c r1 && avoids c r2
  | Star r' => avoids c r'
  | Group _ r' => avoids c r'
  end.

Definition newline : ascii := "010"%char.

(** A text without a newline: one line. *)
Definition one_line (s : string) : bool := negb (Py.contains newline s).

(** ["\n".join(lines)] *)
Fixpoint join (lines : list string) : string :=
  match lines with
  | [] => ""
  | [line] => line
  | line :: lines' => line ++ String newline (join lines')
  end.

End Lines.

(** ** The main program *)
Module Main.

(** [str.isspace] on one character below 256. *)
Definition is_space (c : ascii) : bool :=
  Re.between 9 13 c || Re.between 28 32 c
  || (Re.code c =? 133)%nat || (Re.code c =? 160)%nat.

Fixpoint all_space (s : string) : bool :=
  match s with
  | "" => true
  | String c s' => is_space c && all_space s'
  end.

Fixpoint lstrip (s : string) : string :=
  match s with
  | "" => ""
  | String c s' => if is_space c then lstrip s' else s
  end.

Fixpoint rstrip (s : string) : string :=
  match s with
  | "" => ""
  | String c s' =>
      match rstrip s' with
      | "" => if is_space c then "" else String c ""
      | r => String c r
      end
  end.

(** [s.strip()] *)
Definition strip (s : string) : string := rstrip (lstrip s).

(** [line.strip() == "END"] *)
Definition ends_input (line : string) : bool := strip line =? "END".

Definition goes_on (line : string) : bool := negb (ends_input line).

Definition prompt : string :=
  "Enter your C++ code line by line. Type END to finish input:".

Definition tokens_header : string := String Lines.newline "Tokens:".

(** The input loop.  [stdin] holds what the calls of [input()] return, one
    line per call; a call after the last line raises [EOFError], which is
    [None] here.  The result is [lines] at the [break] and the lines left
    unread. *)
Fixpoint input_loop (lines stdin : list string)
  : option (list string * list string) :=
  match stdin with
  | [] => None
  | line :: rest =>
      if ends_input line then Some (lines, rest)
      else input_loop (lines ++ [line])%list rest
  end.

Inductive ending : Type :=
| Returned
| EOFError
| Escaped (e : Parser.exn)
| Unfinished.

(** What a run shows: the lines printed, in order, and how it ends. *)
Record trace : Type := { printed : list string; ended : ending }.

(** The main program, the parser being [Parser.parse]; [Stack.main] is
    the same program on a call stack of bounded depth. *)
Definition main (stdin : list string) : trace :=
  match input_loop [] stdin with
  | None => {| printed := [prompt]; ended := EOFError |}
  | Some (lines, _) =>
      let code := Lines.join lines in
      let tokens := Scanner.scan code in
      let listing := prompt :: tokens_header :: map Py.repr_pair tokens in
      match Parser.parse tokens with
      | Parser.Printed o =>
          {| printed := (listing ++ [Parser.stdout o])%list; ended := Returned |}
      | Parser.Uncaught e => {| printed := listing; ended := Escaped e |}
      | Parser.Timeout => {| printed := listing; ended := Unfinished |}
      end
  end.

End Main.

(** ** The parser on the interpreter's call stack *)

(** Python bounds the depth of nested calls: a call made when the stack is
    full raises [RecursionError], which is not a [SyntaxError] and which
    no rule catches.  Here every rule takes, besides the budget [fuel]
    that makes the definition structural, the number [depth] of frames
    that are still free: the number of nested calls of the parser's
    methods that the interpreter still accepts.  A call of a method,
    [peek], [advance] and [match] included, takes one frame for as long
    as it runs; a turn of a [while] loop, a subscript, an operator and the
    builtins [len] and [print] take none.  A raise keeps the cursor it
    leaves in [self.pos]. *)
Module Stack.
Import Scanner.

Inductive result (A : Type) : Type :=
| Ok (a : A) (pos : nat)
| Raise (e : Parser.exn) (pos : nat)
| RecursionError (pos : nat)
| OutOfFuel.
Arguments Ok {A} a pos.
Arguments Raise {A} e pos.
Arguments RecursionError {A} pos.
Arguments OutOfFuel {A}.

Definition M (A : Type) : Type := nat -> result A.

Definition ret {A} (a : A) : M A := fun pos => Ok a pos.
Definition bind {A B} (m : M A) (k : A -> M B) : M B :=
  fun pos =>
    match m pos with
    | Ok a pos' => k a pos'
    | Raise e pos' => Raise e pos'
    | RecursionError pos' => RecursionError pos'
    | OutOfFuel => OutOfFuel
    end.
Definition raise {A} (msg : string) : M A :=
  fun pos => Raise (Parser.SyntaxError msg) pos.
Definition timeout {A} : M A := fun _ => OutOfFuel.

(** A call of a method: its body runs with one frame less. *)
Definition call {A} (depth : nat) (body : nat -> M A) : M A :=
  fun pos =>
    match depth with
    | 0 => RecursionError pos
    | S depth' => body depth' pos
    end.

#[local] Notation "x <- m ;; k" := (bind m (fun x => k))
  (at level 61, m at next level, right associativity).
#[local] Notation "m ;;; k" := (bind m (fun _ => k))
  (at level 61, right associativity).

Definition and_ (a b : M bool) : M bool :=
  x <- a ;; if x then b else ret false.

Section Rules.
Variable tokens : list token.

Definition peek (depth : nat) : M token :=
  call depth (fun _ pos => Ok (Parser.peek_at tokens pos) pos).

Definition advance (depth : nat) : M unit :=
  call depth (fun _ pos => Ok tt (pos + 1)).

Definition match_ (depth : nat) (expected_type : string)
  (expected_value : option string) : M bool :=
  call depth (fun d =>
    tok <- peek d ;;
    let '(tok_type, tok_val) := tok in
    if (tok_type =? expected_type)
       && match expected_value with None => true | Some v => tok_val =? v end
    then advance d ;;; ret true
    else ret false).

(** [self.tokens[self.pos - 1]]: a subscript, no call. *)
Definition previous : M token :=
  fun pos =>
    match Py.getitem tokens (Z.of_nat pos - 1) with
    | Some tok => Ok tok pos
    | None => Raise Parser.IndexError pos
    end.

Fixpoint expression (fuel depth : nat) : M unit :=
  match fuel with
  | 0 => timeout
  | S fuel =>
      call depth (fun d =>
        term fuel d ;;;
        expression_while fuel d)
  end
with expression_while (fuel d : nat) : M unit :=
  match fuel with
  | 0 => timeout
  | S fuel =>
      b <- match_ d "OP" None ;;
      if b then
        tok <- previous ;;
        if mem (snd tok) Parser.binary_operators
        then term fuel d ;;; expression_while fuel d
        else ret tt
      else ret tt
  end
with term (fuel depth : nat) : M unit :=
  match fuel with
  | 0 => timeout
  | S fuel =>
      call depth (fun d =>
        tok <- peek d ;;
        if mem (fst tok) ["NUMBER"; "ID"; "KEYWORD"] then advance d
        else
          b <- match_ d "LPAREN" None ;;
          if b then
            expression fuel d ;;;
            b' <- match_ d "RPAREN" None ;;
            if negb b' then raise "Missing closing parenthesis" else ret tt
          else
            tok' <- peek d ;;
            raise ("Unexpected token in term: " ++ Py.repr_pair tok'))
  end.

Definition declaration (fuel depth : nat) : M bool :=
  call depth (fun d =>
    advance d ;;;
    b <- match_ d "ID" None ;;
    if b then
      b1 <- match_ d "OP" (Some "=") ;;
      (if b1 then expression fuel d else ret tt) ;;;
      b2 <- match_ d "SEMI" None ;;
      if b2 then ret true else ret false
    else ret false).

Definition assignment (fuel depth : nat) : M bool :=
  call depth (fun d =>
    advance d ;;;
    b <- match_ d "OP" (Some "=") ;;
    if b then
      expression fuel d ;;;
      b' <- match_ d "SEMI" None ;;
      if b' then ret true else ret false
    else ret false).

Definition return_statement (fuel depth : nat) : M bool :=
  call depth (fun d =>
    advance d ;;;
    expression fuel d ;;;
    b <- match_ d "SEMI" None ;;
    if negb b then raise "Missing ';' after return" else ret true).

Fixpoint statement (fuel depth : nat) : M bool :=
  match fuel with
  | 0 => timeout
  | S fuel =>
      call depth (fun d =>
        tok <- peek d ;;
        let '(tok_type, tok_val) := tok in
        if (tok_type =? "KEYWORD") && mem tok_val ["int"; "float"; "double"; "bool"]
        then declaration fuel d
        else if tok_type =? "ID" then assignment fuel d
        else if (tok_type =? "KEYWORD") && (tok_val =? "if") then if_statement fuel d
        else if (tok_type =? "KEYWORD") && (tok_val =? "while") then while_loop fuel d
        else if (tok_type =? "KEYWORD") && (tok_val =? "for") then for_loop fuel d
        else if (tok_type =? "KEYWORD") && (tok_val =? "return")
             then return_statement fuel d
        else ret false)
  end
with if_statement (fuel depth : nat) : M bool :=
  match fuel with
  | 0 => timeout
  | S fuel =>
      call depth (fun d =>
        advance d ;;;
        b <- match_ d "LPAREN" None ;;
        if negb b then raise "Missing '(' after if" else
        expression fuel d ;;;
        b <- match_ d "RPAREN" None ;;
        if negb b then raise "Missing ')' after if condition" else
        b <- block fuel d ;;
        if negb b then raise "Missing block after if" else
        b <- match_ d "KEYWORD" (Some "else") ;;
        (if b then
           b' <- block fuel d ;;
           if negb b' then raise "Missing block after else" else ret tt
         else ret tt) ;;;
        ret true)
  end
with while_loop (fuel depth : nat) : M bool :=
  match fuel with
  | 0 => timeout
  | S fuel =>
      call depth (fun d =>
        advance d ;;;
        b <- match_ d "LPAREN" None ;;
        if negb b then raise "Missing '(' after while" else
        expression fuel d ;;;
        b <- match_ d "RPAREN" None ;;
        if negb b then raise "Missing ')' after while condition" else
        b <- block fuel d ;;
        if negb b then raise "Missing block after while" else
        ret true)
  end
with for_loop (fuel depth : nat) : M bool :=
  match fuel with
  | 0 => timeout
  | S fuel =>
      call depth (fun d =>
        advance d ;;;
        b <- match_ d "LPAREN" None ;;
        if negb b then raise "Missing '(' after for" else
        statement fuel d ;;;
        expression fuel d ;;;
        match_ d "SEMI" None ;;;
        assignment fuel d ;;;
        b <- match_ d "RPAREN" None ;;
        if negb b then raise "Missing ')' after for loop" else
        b <- block fuel d ;;
        if negb b then raise "Missing block after for" else
        ret true)
  end
with block (fuel depth : nat) : M bool :=
  match fuel with
  | 0 => timeout
  | S fuel =>
      call depth (fun d =>
        b <- match_ d "LBRACE" None ;;
        if b then block_while fuel d ;;; ret true
        else ret false)
  end
with block_while (fuel d : nat) : M unit :=
  match fuel with
  | 0 => timeout
  | S fuel =>
      b <- match_ d "RBRACE" None ;;
      if negb b then
        b' <- statement fuel d ;;
        if negb b' then
          tok <- peek d ;;
          raise ("Invalid statement in block: " ++ Py.repr_pair tok)
        else block_while fuel d
      else ret tt
  end.

(** The [while self.pos < len(self.tokens)] loop of [parse]; [len] is a
    builtin and takes no frame. *)
Fixpoint parse_while (fuel d : nat) : M unit :=
  match fuel with
  | 0 => timeout
  | S fuel =>
      fun pos =>
        if (pos <? List.length tokens)%nat then
          (b <- statement fuel d ;;
           if negb b then
             tok <- peek d ;;
             raise ("Unexpected token: " ++ Py.repr_pair tok)
           else parse_while fuel d) pos
        else Ok tt pos
  end.

Definition main_prologue (d : nat) : M bool :=
  and_ (match_ d "KEYWORD" (Some "int"))
    (and_ (match_ d "KEYWORD" (Some "main"))
       (and_ (match_ d "LPAREN" None) (match_ d "RPAREN" None))).

(** The body of the [try] in [parse], with [d] frames free. *)
Definition parse_try (fuel d : nat) : M unit :=
  b <- main_prologue d ;;
  (if b then
     b' <- block fuel d ;;
     if negb b' then raise "Missing block after main()" else ret tt
   else ret tt) ;;;
  parse_while fuel d.

End Rules.

(** What the caller of [parse] observes, and the cursor that [parse]
    leaves in [self.pos]. *)
Inductive run : Type :=
| Printed (o : Parser.outcome) (pos : nat)
| Escaped (e : Parser.exn) (pos : nat)
| Overflow (pos : nat)               (* [RecursionError] reaches the caller *)
| Timeout.

(** [except SyntaxError] catches neither [IndexError] nor
    [RecursionError]. *)
Definition finish (r : result unit) : run :=
  match r with
  | Ok _ pos => Printed Parser.Accepted pos
  | Raise (Parser.SyntaxError msg) pos => Printed (Parser.Rejected msg) pos
  | Raise e pos => Escaped e pos
  | RecursionError pos => Overflow pos
  | OutOfFuel => Timeout
  end.

Definition parse_fuel (fuel depth : nat) (tokens : list token) : run :=
  match depth with
  | 0 => Overflow 0
  | S d => finish (parse_try tokens fuel d 0)
  end.

(** [parse] on a fresh [Parser], called with [depth] frames free. *)
Definition parse (depth : nat) (tokens : list token) : run :=
  parse_fuel (Parser.budget tokens) depth tokens.

(** An operand inside [n] pairs of parentheses. *)
Definition nested (n : nat) (operand : token) : list token :=
  (repeat ("LPAREN", "(") n ++ operand :: repeat ("RPAREN", ")") n)%list.

(** The tokens of [x = (...(1)...);] with [n] pairs of parentheses. *)
Definition assign_nested (n : nat) : list token :=
  (("ID", "x") :: ("OP", "=") :: nested n ("NUMBER", "1") ++ [("SEMI", ";")])%list.

Inductive ending : Type :=
| Returned
| EOFError
| Died (e : Parser.exn)
| Overflowed
| Unfinished.

Record trace : Type := { printed : list string; ended : ending }.

(** The main program, [depth] being the frames that are free when the
    module calls [parser.parse()].  The calls of the scanner nest to a
    depth that does not depend on the code, and the stack is taken to hold
    them. *)
Definition main (depth : nat) (stdin : list string) : trace :=
  match Main.input_loop [] stdin with
  | None => {| printed := [Main.prompt]; ended := EOFError |}
  | Some (lines, _) =>
      let code := Lines.join lines in
      let tokens := Scanner.scan code in
      let listing := Main.prompt :: Main.tokens_header :: map Py.repr_pair tokens in
      match parse depth tokens with
      | Printed o _ =>
          {| printed := (listing ++ [Parser.stdout o])%list; ended := Returned |}
      | Escaped e _ => {| printed := listing; ended := Died e |}
      | Overflow _ => {| printed := listing; ended := Overflowed |}
      | Timeout => {| printed := listing; ended := Unfinished |}
      end
  end.

(** [agrees r r']: a result of the rules of [Parser] and a result here
    that are the same, the cursor of a raise apart. *)
Definition agrees {A} (r : Parser.result A) (r' : result A) : Prop :=
  match r', r with
  | Ok a' pos', Parser.Ok a pos => a = a' /\ pos = pos'
  | Raise e' _, Parser.Raise e => e = e'
  | OutOfFuel, Parser.OutOfFuel => True
  | _, _ => False
  end.

(** [sim safe m m']: the method [m'] ends as [m] of [Parser] does, or in
    [RecursionError]; the latter only when [safe] fails. *)
Definition sim {A} (safe : Prop) (m : Parser.M A) (m' : M A) : Prop :=
  forall pos,
    match m' pos with
    | RecursionError _ => ~ safe
    | r' => agrees (m pos) r'
    end.


(** The token lists [a] and [b] are the same up to and including
    position [pos]. *)
Definition agree (a b : list token) (pos : nat) : Prop :=
  firstn (S pos) a = firstn (S pos) b.




End Stack.

Import Re Scanner Parser Spec.

(** ** Facts about the matcher *)
Module ReFacts.

Lemma suffix_trans t s u : suffix t s -> suffix s u -> suffix t u.
Proof. intros Hts Hsu. induction Hsu; [assumption | now constructor]. Qed.

Lemma suffix_length t s : suffix t s -> String.length t <= String.length s.
Proof. induction 1; simpl; lia. Qed.

(** A successful run reached its continuation on a suffix of the text,
    a proper one when the pattern cannot match the empty text. *)
Lemma exec_sound r : forall s lg k x,
    exec r s lg k = Some x ->
    exists s' lg', k s' lg' = Some x /\ suffix s' s
                   /\ (nullable r = false -> String.length s' < String.length s).
Proof.
  induction r as [|items|r1 IH1 r2 IH2|r1 IH1 r2 IH2|r IH|name r IH];
    intros s lg k x H; simpl in *.
  - exists s, lg. repeat split; [assumption | constructor | discriminate].
  - destruct s as [|c s]; [discriminate|].
    destruct (in_class items c); [|discriminate].
    exists s, lg. repeat split; [assumption | repeat constructor | simpl; lia].
  - apply IH1 in H as (s1 & lg1 & H & Hs1 & Hn1).
    apply IH2 in H as (s2 & lg2 & H & Hs2 & Hn2).
    exists s2, lg2. repeat split; [assumption | eapply suffix_trans; eassumption |].
    intros Hn. apply suffix_length in Hs1 as L1. apply suffix_length in Hs2 as L2.
    apply andb_false_iff in Hn as [Hn|Hn]; [specialize (Hn1 Hn) | specialize (Hn2 Hn)]; lia.
  - destruct (exec r1 s lg k) eqn:E1.
    + injection H as <-. apply IH1 in E1 as (s1 & lg1 & H & Hs1 & Hn1).
      exists s1, lg1. repeat split; auto.
      intros Hn. apply orb_false_iff in Hn as [Hn _]. auto.
    + apply IH2 in H as (s2 & lg2 & H & Hs2 & Hn2).
      exists s2, lg2. repeat split; auto.
      intros Hn. apply orb_false_iff in Hn as [_ Hn]. auto.
  - revert H. generalize (String.length s) as n. intros n. revert s lg.
    induction n as [|n IHn]; intros s lg H; simpl in H.
    + exists s, lg. repeat split; [assumption | constructor | discriminate].
    + destruct (exec r s lg _) eqn:E.
      * injection H as <-. apply IH in E as (s1 & lg1 & H & Hs1 & _).
        destruct (String.length s1 <? String.length s)%nat; [|discriminate].
        apply IHn in H as (s2 & lg2 & H & Hs2 & _).
        exists s2, lg2. repeat split;
          [assumption | eapply suffix_trans; eassumption | discriminate].
      * exists s, lg. repeat split; [assumption | constructor | discriminate].
  - apply IH in H as (s1 & lg1 & H & Hs1 & Hn1). eauto.
Qed.

(** A pattern that cannot start with [c] matches at [c] only the empty
    text. *)
Lemma exec_first r c : forall s lg k x,
    first r c = false ->
    exec r (String c s) lg k = Some x ->
    nullable r = true /\ exists lg', k (String c s) lg' = Some x.
Proof.
  induction r as [|items|r1 IH1 r2 IH2|r1 IH1 r2 IH2|r IH|name r IH];
    intros s lg k x H E; simpl in *.
  - eauto.
  - now rewrite H in E.
  - apply orb_false_iff in H as [H1 H2].
    apply IH1 in E as (N1 & lg1 & E); [|assumption].
    rewrite N1 in *. simpl in H2.
    apply IH2 in E as (N2 & lg2 & E); [|assumption]. eauto.
  - apply orb_false_iff in H as [H1 H2].
    destruct (exec r1 (String c s) lg k) eqn:E1.
    + injection E as <-. apply IH1 in E1 as (N1 & lg1 & E1); [|assumption].
      rewrite N1. eauto.
    + apply IH2 in E as (N2 & lg2 & E); [|assumption].
      rewrite N2, orb_true_r. eauto.
  - destruct (exec r (String c s) lg _) eqn:E1; [|eauto].
    apply IH in E1 as (_ & lg1 & E1); [|assumption].
    now rewrite Nat.ltb_irrefl in E1.
  - apply IH in E as (N & lg1 & E); eauto.
Qed.

Lemma exec_first_none r c s lg k :
  first r c = false -> nullable r = false -> exec r (String c s) lg k = None.
Proof.
  intros H N. destruct (exec r (String c s) lg k) eqn:E; [|reflexivity].
  apply exec_first in E as (N' & _); [congruence | assumption].
Qed.

(** A greedy repetition never fails when what follows it cannot fail. *)
Lemma exec_star_total r s lg k :
  (forall s' lg', k s' lg' <> None) -> exec (Star r) s lg k <> None.
Proof.
  intros Hk. simpl. destruct (String.length s) as [|n]; simpl; [apply Hk|].
  destruct (exec r s lg _); [discriminate | apply Hk].
Qed.

(** *** [finditer] never exhausts a budget above the length of the text *)

Lemma finditer_fuel_some r fuel : forall s,
    String.length s < fuel -> exists ms, finditer_fuel fuel r s = Some ms.
Proof.
  induction fuel as [|fuel IH]; intros s Hf; [lia|]. simpl.
  destruct (match_at r s) as [[lg rest]|].
  - destruct (Nat.ltb_spec (String.length rest) (String.length s)).
    + destruct (IH rest) as [ms ->]; [lia|]. simpl. eauto.
    + destruct s as [|c s]; [eauto|].
      destruct (IH s) as [ms ->]; [simpl in Hf; lia|]. simpl. eauto.
  - destruct s as [|c s]; [eauto|]. apply IH. simpl in Hf. lia.
Qed.

Lemma finditer_fuel_mono r fuel : forall fuel' s ms,
    finditer_fuel fuel r s = Some ms -> fuel <= fuel' ->
    finditer_fuel fuel' r s = Some ms.
Proof.
  induction fuel as [|fuel IH]; intros fuel' s ms H Hle; [discriminate|].
  destruct fuel' as [|fuel']; [lia|]. simpl in *.
  assert (Hopt : forall mo t ms,
             option_map (cons mo) (finditer_fuel fuel r t) = Some ms ->
             option_map (cons mo) (finditer_fuel fuel' r t) = Some ms).
  { intros mo t ms0 E. destruct (finditer_fuel fuel r t) as [l|] eqn:El;
      [|discriminate]. now rewrite (IH fuel' t l) by (auto; lia). }
  destruct (match_at r s) as [[lg rest]|].
  - destruct (String.length rest <? String.length s)%nat; [now apply Hopt|].
    destruct s as [|c s]; [assumption | now apply Hopt].
  - destruct s as [|c s]; [assumption | apply IH; [assumption | lia]].
Qed.

Lemma finditer_fuel_S r fuel s :
  finditer_fuel (S fuel) r s =
  match match_at r s with
  | Some (lg, rest) =>
      let mo := {| lastgroup := lg;
                   group := substring 0 (String.length s - String.length rest) s |} in
      if (String.length rest <? String.length s)%nat
      then option_map (cons mo) (finditer_fuel fuel r rest)
      else match s with
           | "" => Some [mo]
           | String _ s' => option_map (cons mo) (finditer_fuel fuel r s')
           end
  | None =>
      match s with
      | "" => Some []
      | String _ s' => finditer_fuel fuel r s'
      end
  end.
Proof. reflexivity. Qed.

Lemma finditer_fuel_enough r s fuel :
  String.length s < fuel -> finditer_fuel fuel r s = Some (finditer r s).
Proof.
  intros Hf. unfold finditer.
  destruct (finditer_fuel_some r (S (String.length s)) s) as [ms E]; [lia|].
  rewrite E. apply finditer_fuel_mono with (fuel := S (String.length s));
    [assumption | lia].
Qed.

Lemma finditer_match r s lg rest :
  match_at r s = Some (lg, rest) ->
  String.length rest < String.length s ->
  finditer r s =
  {| lastgroup := lg;
     group := substring 0 (String.length s - String.length rest) s |}
    :: finditer r rest.
Proof.
  intros E Hlt.
  pose proof (finditer_fuel_enough r s (S (String.length s)) (Nat.lt_succ_diag_r _)) as H.
  rewrite finditer_fuel_S, E in H.
  destruct (Nat.ltb_spec (String.length rest) (String.length s)); [|lia].
  rewrite (finditer_fuel_enough r rest) in H by assumption.
  simpl in H. now injection H as <-.
Qed.

Lemma finditer_skip r c s :
  match_at r (String c s) = None -> finditer r (String c s) = finditer r s.
Proof.
  intros E.
  pose proof (finditer_fuel_enough r (String c s) _ (Nat.lt_succ_diag_r _)) as H.
  rewrite finditer_fuel_S, E in H.
  rewrite (finditer_fuel_enough r s) in H by (simpl; lia).
  now injection H as <-.
Qed.

End ReFacts.

(** ** Facts about the scanner *)
Module ScannerFacts.
Import ReFacts.

Lemma token_regex_named : token_regex = alternatives (map named token_specification).
Proof. reflexivity. Qed.

(** A match of an alternation of named groups closes one of them last. *)
Lemma exec_named spec specs : forall s lg k x,
    exec (alternatives (map named (spec :: specs))) s lg k = Some x ->
    exists name s', In name (map fst (spec :: specs)) /\ k s' (Some name) = Some x.
Proof.
  revert spec. induction specs as [|spec' specs IH]; intros [name r] s lg k x H.
  - simpl in H. apply exec_sound in H as (s' & _ & H & _).
    exists name, s'. simpl. auto.
  - change (exec (Alt (named (name, r)) (alternatives (map named (spec' :: specs))))
              s lg k = Some x) in H.
    simpl in H. destruct (exec r s lg _) eqn:E.
    + injection H as <-. apply exec_sound in E as (s' & _ & H & _).
      exists name, s'. simpl. auto.
    + apply IH in H as (name' & s' & Hin & H).
      exists name', s'. split; [now right | assumption].
Qed.

Lemma lastgroup_named s lg rest :
  match_at token_regex s = Some (lg, rest) ->
  exists name, lg = Some name /\ In name (map fst token_specification).
Proof.
  unfold match_at. rewrite token_regex_named. unfold token_specification.
  intros H. apply exec_named in H as (name & s' & Hin & H).
  injection H as <- <-. eauto.
Qed.

(** No rule matches the empty text: every match reads a character. *)
Lemma match_nonempty s lg rest :
  match_at token_regex s = Some (lg, rest) ->
  suffix rest s /\ String.length rest < String.length s.
Proof.
  intros H. apply exec_sound in H as (s' & lg' & H & Hs & Hn).
  injection H as <- <-. split; [assumption | now apply Hn].
Qed.

Lemma tokenize_loop_app ms : forall acc,
    tokenize_loop ms acc = (acc ++ tokenize_loop ms [])%list.
Proof.
  induction ms as [|mo ms IH]; intros acc; cbn [tokenize_loop app];
    [now rewrite app_nil_r|].
  destruct (lastgroup mo) as [kind|]; [|apply IH].
  destruct ((kind =? "ID") && mem (group mo) keywords).
  { rewrite IH, (IH [_]), app_assoc. reflexivity. }
  destruct (mem kind ["SKIP"; "NEWLINE"]); [apply IH|].
  rewrite IH, (IH [_]), app_assoc. reflexivity.
Qed.

Lemma scan_match s kind rest :
  match_at token_regex s = Some (Some kind, rest) ->
  scan s = (emitted kind (substring 0 (String.length s - String.length rest) s)
              ++ scan rest)%list.
Proof.
  intros H. unfold scan, tokenize, init. cbn [code tokens].
  rewrite (finditer_match _ _ _ _ H) by (now apply match_nonempty in H).
  cbn [tokenize_loop lastgroup group app]. unfold emitted.
  destruct ((kind =? "ID") && mem _ keywords); [apply tokenize_loop_app|].
  destruct (mem kind ["SKIP"; "NEWLINE"]); [reflexivity | apply tokenize_loop_app].
Qed.

Lemma scan_skip c s :
  match_at token_regex (String c s) = None -> scan (String c s) = scan s.
Proof.
  intros H. unfold scan, tokenize. simpl. now rewrite finditer_skip.
Qed.

(** A character that starts no rule is passed over. *)
Lemma scan_unmatched_char c s :
  first token_regex c = false -> scan (String c s) = scan s.
Proof.
  intros H. apply scan_skip. unfold match_at.
  apply exec_first_none; [assumption | reflexivity].
Qed.

Lemma exec_alt_skip r1 r2 c s lg k :
  first r1 c = false -> nullable r1 = false ->
  exec (Alt r1 r2) (String c s) lg k = exec r2 (String c s) lg k.
Proof. intros H N. simpl. now rewrite exec_first_none. Qed.

Lemma exec_alt_take r1 r2 s lg k x :
  exec r1 s lg k = Some x -> exec (Alt r1 r2) s lg k = Some x.
Proof. intros H. simpl. now rewrite H. Qed.

(** [r+] on a character of the class, as the last thing in a group:
    the match succeeds and closes that group. *)
Lemma exec_class_star items r c s name :
  in_class items c = true ->
  exists rest,
    exec (Group (Some name) (Seq (Cls items) (Star r))) (String c s) None
      (fun s' lg => Some (lg, s')) = Some (Some name, rest).
Proof.
  intros H. cbn [exec]. rewrite H.
  change (exists rest, exec (Star r) s None (fun s' _ => Some (Some name, s'))
                       = Some (Some name, rest)).
  destruct (exec (Star r) s None (fun s' _ => Some (Some name, s'))) as [x|] eqn:E.
  - apply exec_sound in E as (s' & _ & E & _). injection E as <-. eauto.
  - now apply exec_star_total in E.
Qed.

(** Rule NUMBER cannot start with a letter or an underscore. *)
Lemma letter_not_number c :
  in_class [Range "A" "Z"; Range "a" "z"; Ch "_"] c = true ->
  first (Group (Some "NUMBER")
           (Seq (Plus (Cls [Digit]))
              (Opt (Group None (Seq (Lit ".") (Star (Cls [Digit]))))))) c = false.
Proof.
  destruct c as [[|] [|] [|] [|] [|] [|] [|] [|]]; vm_compute;
    intros H; (reflexivity || discriminate H).
Qed.

(** Where a letter or an underscore starts the text, rule ID matches. *)
Lemma match_id c s :
  in_class [Range "A" "Z"; Range "a" "z"; Ch "_"] c = true ->
  exists rest, match_at token_regex (String c s) = Some (Some "ID", rest).
Proof.
  intros H. unfold match_at. rewrite token_regex_named.
  cbn [token_specification map named alternatives].
  rewrite exec_alt_skip; [|now apply letter_not_number|reflexivity].
  destruct (exec_class_star _ (Cls [Word]) c s "ID" H) as [rest E].
  exists rest. apply exec_alt_take. exact E.
Qed.

(** Where a space, a tab or a newline starts the text, rule SKIP or
    rule NEWLINE matches. *)
Lemma match_blank c s :
  is_blank c = true ->
  exists kind rest,
    match_at token_regex (String c s) = Some (Some kind, rest)
    /\ mem kind ["SKIP"; "NEWLINE"] = true.
Proof.
  intros H. unfold is_blank in H.
  unfold match_at. rewrite token_regex_named.
  cbn [token_specification map named alternatives].
  apply orb_true_iff in H as [H|H]; [apply orb_true_iff in H as [H|H]|];
    apply Ascii.eqb_eq in H; subst c;
    do 8 (rewrite exec_alt_skip by reflexivity).
  - destruct (exec_class_star [Ch " "; Ch "009"] (Cls [Ch " "; Ch "009"])
                " " s "SKIP" eq_refl) as [rest E].
    exists "SKIP", rest. split; [apply exec_alt_take; exact E | reflexivity].
  - destruct (exec_class_star [Ch " "; Ch "009"] (Cls [Ch " "; Ch "009"])
                "009" s "SKIP" eq_refl) as [rest E].
    exists "SKIP", rest. split; [apply exec_alt_take; exact E | reflexivity].
  - rewrite exec_alt_skip by reflexivity. exists "NEWLINE", s. split; reflexivity.
Qed.

Lemma whitespace_suffix t s :
  suffix t s -> whitespace_only s = true -> whitespace_only t = true.
Proof.
  induction 1 as [|c s Hts IH]; [auto|]. simpl. intros Hs.
  apply andb_true_iff in Hs as [_ Hs]. auto.
Qed.

Lemma scan_whitespace s : whitespace_only s = true -> scan s = [].
Proof.
  remember (String.length s) as n eqn:Hn. revert s Hn.
  induction n as [n IH] using lt_wf_ind. intros s Hn Hs.
  destruct s as [|c s]; [reflexivity|].
  simpl in Hs. apply andb_true_iff in Hs as [Hc Hs].
  destruct (match_blank c s Hc) as (kind & rest & E & Hk).
  rewrite (scan_match _ _ _ E). unfold emitted. rewrite Hk.
  destruct (mem kind ["SKIP"; "NEWLINE"]) eqn:Hk'; [|discriminate].
  replace ((kind =? "ID") && _) with false.
  2:{ simpl in Hk'. apply orb_true_iff in Hk' as [H|H];
      [|apply orb_true_iff in H as [H|H]; [|discriminate]];
      apply String.eqb_eq in H; now subst kind. }
  apply match_nonempty in E as [Hsuf Hlen].
  apply (IH (String.length rest)); [lia | reflexivity |].
  apply whitespace_suffix with (s := String c s); [assumption|].
  simpl. now rewrite Hc, Hs.
Qed.


(** A match of two characters under rule OP is one OP token. *)
Lemma scan_two_characters a b s :
  match_at token_regex (String a (String b s)) = Some (Some "OP", s) ->
  scan (String a (String b s)) = ("OP", String a (String b "")) :: scan s.
Proof.
  intros E. rewrite (scan_match _ _ _ E).
  replace (String.length (String a (String b s)) - String.length s) with 2
    by (cbn [String.length]; lia).
  cbn [substring]. now destruct s.
Qed.

Lemma keyword_first c w :
  mem (String c w) keywords = true ->
  in_class [Range "A" "Z"; Range "a" "z"; Ch "_"] c = true.
Proof.
  unfold mem, keywords. cbn [existsb]. intros H.
  repeat (apply orb_true_iff in H as [H|H]);
    try (apply String.eqb_eq in H; injection H as -> _; reflexivity).
  discriminate H.
Qed.

(** A token whose lexeme is a keyword has kind KEYWORD. *)
Lemma scan_keyword s : forall kind lex,
    In (kind, lex) (scan s) -> mem lex keywords = true -> kind = "KEYWORD".
Proof.
  remember (String.length s) as n eqn:Hn. revert s Hn.
  induction n as [n IH] using lt_wf_ind. intros s Hn kind lex Hin Hk.
  destruct s as [|c s]; [contradiction|].
  destruct (match_at token_regex (String c s)) as [[lg rest]|] eqn:E.
  - destruct (lastgroup_named _ _ _ E) as (g & -> & _).
    destruct (match_nonempty _ _ _ E) as [_ Hlen].
    rewrite (scan_match _ _ _ E) in Hin.
    remember (String.length (String c s) - String.length rest) as m eqn:Hm.
    apply in_app_or in Hin as [Hin|Hin].
    + unfold emitted in Hin.
      destruct ((g =? "ID") && mem _ keywords) eqn:C1.
      { destruct Hin as [Hin|[]]. now injection Hin as <- _. }
      destruct (mem g ["SKIP"; "NEWLINE"]); [contradiction|].
      destruct Hin as [Hin|[]]. injection Hin as <- <-.
      destruct m as [|m]; [lia|].
      cbn [substring] in *. rewrite Hk, andb_true_r in C1.
      destruct (match_id c s (keyword_first _ _ Hk)) as [rest' E'].
      rewrite E in E'. injection E' as -> _. discriminate C1.
    + apply (IH (String.length rest)) with (s := rest) (lex := lex); auto. lia.
  - rewrite (scan_skip _ _ E) in Hin.
    apply (IH (String.length s)) with (s := s) (lex := lex); auto. simpl in Hn. lia.
Qed.

End ScannerFacts.

(** ** The parser runs within its budget *)
Module ParserFacts.

Lemma ensures_bind {A B} (m : M A) (k : A -> M B) pos Q1 Q :
  ensures (m pos) Q1 ->
  (forall a p, Q1 a p -> ensures (k a p) Q) ->
  ensures (bind m k pos) Q.
Proof.
  unfold bind. destruct (m pos) as [a p|[msg|]|]; simpl; auto; contradiction.
Qed.

Lemma bind_assoc {A B C} (m : M A) (k : A -> M B) (k' : B -> M C) pos :
  bind (bind m k) k' pos = bind m (fun a => bind (k a) k') pos.
Proof. unfold bind. now destruct (m pos). Qed.

Lemma ensures_weaken {A} (r : result A) (Q1 Q2 : A -> nat -> Prop) :
  ensures r Q1 -> (forall a p, Q1 a p -> Q2 a p) -> ensures r Q2.
Proof. destruct r as [a p|[msg|]|]; simpl; auto. Qed.

Lemma ensures_ret {A} (a : A) pos (Q : A -> nat -> Prop) :
  Q a pos -> ensures (ret a pos) Q.
Proof. auto. Qed.

Lemma ensures_ret_eq {A} (a : A) pos :
  ensures (ret a pos) (fun a' p => a' = a /\ p = pos).
Proof. simpl. auto. Qed.

Lemma ensures_raise {A} msg pos (Q : A -> nat -> Prop) :
  ensures (raise msg pos) Q.
Proof. exact I. Qed.

Section Budget.
Variable tokens : list token.
Let L := List.length tokens.

Lemma peek_at_end pos : L <= pos -> peek_at tokens pos = ("EOF", "").
Proof.
  intros H. unfold peek_at. fold L.
  destruct (Nat.ltb_spec pos L); [lia | reflexivity].
Qed.

Lemma peek_kind pos : fst (peek_at tokens pos) <> "EOF" -> pos < L.
Proof.
  intros H. destruct (Nat.lt_ge_cases pos L) as [|Hge]; [assumption|].
  rewrite (peek_at_end _ Hge) in H. now elim H.
Qed.

Lemma match_spec ty v pos :
  ty <> "EOF" ->
  (match_ tokens ty v pos = Ok true (pos + 1) /\ pos < L)
  \/ match_ tokens ty v pos = Ok false pos.
Proof.
  intros Hty. unfold match_, bind, peek.
  pose proof (peek_kind pos) as Hk.
  destruct (peek_at tokens pos) as [tok_type tok_val]. simpl in Hk.
  destruct (String.eqb_spec tok_type ty) as [->|]; simpl; [|now right].
  destruct (match v with Some v0 => tok_val =? v0 | None => true end);
    [left; split; [reflexivity | now apply Hk] | now right].
Qed.

Lemma ensures_match ty v pos :
  ty <> "EOF" ->
  ensures (match_ tokens ty v pos)
    (fun b p => if b then p = pos + 1 /\ pos < L else p = pos).
Proof.
  intros Hty. destruct (match_spec ty v pos Hty) as [[-> H]| ->]; simpl; auto.
Qed.

Lemma ensures_previous pos :
  0 < pos <= L -> ensures (previous tokens pos) (fun _ p => p = pos).
Proof.
  intros H. unfold previous, Py.getitem. fold L.
  replace (Z.of_nat pos - 1)%Z with (Z.of_nat (pos - 1)) by lia.
  destruct (Z.leb_spec 0 (Z.of_nat (pos - 1))); [|lia].
  destruct (Z.ltb_spec (Z.of_nat (pos - 1)) (Z.of_nat L)); [|lia].
  simpl. rewrite Nat2Z.id.
  destruct (nth_error tokens (pos - 1)) eqn:E; simpl; [reflexivity|].
  apply nth_error_None in E. fold L in E. lia.
Qed.

Lemma ensures_peek pos :
  ensures (peek tokens pos)
    (fun tok p => p = pos /\ tok = peek_at tokens pos
                  /\ (fst (peek_at tokens pos) <> "EOF" -> pos < L)).
Proof. simpl. auto using peek_kind. Qed.

Lemma ensures_advance pos :
  ensures (advance pos) (fun _ p => p = pos + 1).
Proof. reflexivity. Qed.

(** One step through a rule: the first call of the body, by the fact
    known about it. *)
Ltac step :=
  cbn [negb];
  repeat match goal with
    | H : _ /\ _ |- _ => destruct H
    | H : ?x = ?x -> _ |- _ => specialize (H eq_refl)
    | H : false = true -> _ |- _ => clear H
    end;
  lazymatch goal with
  | |- ensures (bind (bind _ _) _ _) _ => rewrite bind_assoc
  | |- ensures (bind (match_ _ _ _) _ _) _ =>
      eapply ensures_bind;
      [apply ensures_match; discriminate | cbv beta; intros [] ? ?]
  | |- ensures (bind (peek _) _ _) _ =>
      eapply ensures_bind;
      [apply ensures_peek | cbv beta; intros ? ? (-> & -> & ?)]
  | |- ensures (bind advance _ _) _ =>
      eapply ensures_bind;
      [apply ensures_advance | cbv beta; intros ? ? ->]
  | |- ensures (bind (previous _) _ _) _ =>
      eapply ensures_bind;
      [apply ensures_previous; lia | cbv beta; intros ? ? ->]
  | |- ensures (bind (if negb ?b then _ else _) _ _) _ => destruct b
  | |- ensures (bind (if ?b then _ else _) _ _) _ => destruct b eqn:?
  | |- ensures (bind (raise _) _ _) _ => exact I
  | |- ensures (bind (ret _) _ _) _ =>
      eapply ensures_bind; [apply ensures_ret_eq | cbv beta; intros ? ? [-> ->]]
  | |- ensures (bind _ _ _) _ =>
      match goal with
      | H : forall pos : nat, _ -> ensures _ _ |- _ =>
          eapply ensures_bind; [apply H; lia | cbv beta; intros ? ? ?]
      end
  | |- ensures (ret _ _) _ => apply ensures_ret
  | |- ensures (raise _ _) _ => apply ensures_raise
  | |- ensures (advance _) _ =>
      eapply ensures_weaken; [apply ensures_advance | cbv beta; intros ? ? ->]
  | |- ensures ((if negb ?b then _ else _) _) _ => destruct b
  | |- ensures ((if ?b then _ else _) _) _ => destruct b eqn:?
  | |- ensures ((let '(_, _) := ?t in _) _) _ => destruct t eqn:?
  | |- ensures _ _ =>
      match goal with
      | H : forall pos : nat, _ -> ensures _ _ |- _ =>
          eapply ensures_weaken; [apply H; lia | cbv beta; intros ? ? ?]
      end
  end.

Ltac steps := repeat step; try lia.

(** [expression], its loop and [term] stay within two units of budget
    per remaining token, and only move the cursor forward. *)
Lemma expression_budget fuel :
  (forall pos, 2 * (L - pos) + 2 <= fuel ->
               ensures (expression tokens fuel pos) (fun _ p => pos <= p))
  /\ (forall pos, 2 * (L - pos) + 1 <= fuel ->
                  ensures (expression_while tokens fuel pos) (fun _ p => pos <= p))
  /\ (forall pos, 2 * (L - pos) + 1 <= fuel ->
                  ensures (term tokens fuel pos) (fun _ p => pos < p)).
Proof.
  induction fuel as [|fuel (IHe & IHw & IHt)].
  { repeat split; intros; lia. }
  repeat split; intros pos Hf; simpl; steps.
Qed.

Lemma expression_ok fuel pos :
  2 * (L - pos) + 2 <= fuel ->
  ensures (expression tokens fuel pos) (fun _ p => pos <= p).
Proof. apply expression_budget. Qed.

Lemma declaration_budget fuel pos :
  2 * (L - pos) + 2 <= fuel ->
  ensures (declaration tokens fuel pos) (fun _ p => pos < p).
Proof.
  intros Hf. pose proof (expression_ok fuel) as He.
  unfold declaration. steps.
Qed.

Lemma assignment_budget fuel pos :
  2 * (L - pos) + 2 <= fuel ->
  ensures (assignment tokens fuel pos) (fun _ p => pos < p).
Proof.
  intros Hf. pose proof (expression_ok fuel) as He.
  unfold assignment. steps.
Qed.

Lemma return_statement_budget fuel pos :
  2 * (L - pos) + 2 <= fuel ->
  ensures (return_statement tokens fuel pos) (fun _ p => pos < p).
Proof.
  intros Hf. pose proof (expression_ok fuel) as He.
  unfold return_statement. steps.
Qed.

(** A true comparison of the current kind with a rule's kind places
    the cursor inside the token list. *)
Ltac inside :=
  repeat match goal with
    | H : _ && _ = true |- _ => apply andb_prop in H; destruct H
    | H : (_ =? _) = true |- _ => apply String.eqb_eq in H
    end;
  simpl fst in *; subst;
  match goal with
  | H : _ <> "EOF" -> ?pos < _ |- _ =>
      assert (pos < L) by (apply H; discriminate)
  end.

(** The statement rules and [block]: within budget, cursor forward;
    a statement that returns [True] started on a token and moved. *)
Lemma statement_budget fuel :
  (forall pos, 2 * (L - pos) + 3 <= fuel ->
               ensures (statement tokens fuel pos)
                 (fun b p => pos <= p /\ (b = true -> pos < L /\ pos < p)))
  /\ (forall pos, 2 * (L - pos) + 2 <= fuel ->
                  ensures (if_statement tokens fuel pos) (fun _ p => pos < p))
  /\ (forall pos, 2 * (L - pos) + 2 <= fuel ->
                  ensures (while_loop tokens fuel pos) (fun _ p => pos < p))
  /\ (forall pos, 2 * (L - pos) + 2 <= fuel ->
                  ensures (for_loop tokens fuel pos) (fun _ p => pos < p))
  /\ (forall pos, 2 * (L - pos) + 3 <= fuel ->
                  ensures (block tokens fuel pos) (fun _ p => pos <= p))
  /\ (forall pos, 2 * (L - pos) + 4 <= fuel ->
                  ensures (block_while tokens fuel pos) (fun _ p => pos <= p)).
Proof.
  induction fuel as [|fuel (IHs & IHi & IHw & IHf & IHb & IHbw)].
  { repeat split; intros; lia. }
  pose proof (expression_ok fuel) as He.
  pose proof (declaration_budget fuel) as Hd.
  pose proof (assignment_budget fuel) as Ha.
  pose proof (return_statement_budget fuel) as Hr.
  repeat split; intros pos Hf; simpl.
  all: repeat step; try inside; try (intuition lia).
Qed.

Lemma parse_while_budget fuel pos :
  2 * (L - pos) + 4 <= fuel ->
  ensures (parse_while tokens fuel pos) (fun _ p => pos <= p).
Proof.
  revert pos. induction fuel as [|fuel IH]; intros pos Hf; [lia|].
  pose proof (proj1 (statement_budget fuel)) as Hs.
  simpl. fold L. destruct (Nat.ltb_spec pos L); [|simpl; lia].
  repeat step; lia.
Qed.

Lemma parse_try_budget fuel :
  2 * L + 4 <= fuel ->
  ensures (parse_try tokens fuel 0) (fun _ _ => True).
Proof.
  intros Hf.
  pose proof (proj1 (proj2 (proj2 (proj2 (proj2 (statement_budget fuel)))))) as Hb.
  pose proof (parse_while_budget fuel) as Hw.
  unfold parse_try, main_prologue, and_. repeat step; auto.
Qed.

End Budget.

(** *** A larger budget does not change a finished call *)

Lemma extends_refl {A} (m : M A) : extends m m.
Proof. now intros pos _. Qed.

Lemma extends_timeout {A} (m : M A) : extends timeout m.
Proof. intros pos H. now elim H. Qed.

Lemma extends_bind {A B} (m m' : M A) (k k' : A -> M B) :
  extends m m' -> (forall a, extends (k a) (k' a)) ->
  extends (bind m k) (bind m' k').
Proof.
  intros Hm Hk pos. unfold bind. intros H.
  rewrite Hm by (intros E; now rewrite E in H).
  destruct (m pos) as [a p| |]; auto. now apply Hk.
Qed.

Lemma extends_guard {A} (c : nat -> bool) (m m' r : M A) :
  extends m m' ->
  extends (fun pos => if c pos then m pos else r pos)
          (fun pos => if c pos then m' pos else r pos).
Proof. intros H pos. destruct (c pos); auto. Qed.

Ltac mono :=
  repeat first
    [ apply extends_refl
    | match goal with
      | H : forall fuel', _ -> extends _ _ |- _ => apply H; lia
      end
    | apply extends_bind; [|intros ?]
    | match goal with
      | |- extends (if ?b then _ else _) _ => destruct b
      | |- extends (let '(_, _) := ?t in _) _ => destruct t
      end ].

Section Monotone.
Variable tokens : list token.

Lemma expression_mono fuel :
  (forall fuel', fuel <= fuel' ->
                 extends (expression tokens fuel) (expression tokens fuel'))
  /\ (forall fuel', fuel <= fuel' ->
                    extends (expression_while tokens fuel) (expression_while tokens fuel'))
  /\ (forall fuel', fuel <= fuel' ->
                    extends (term tokens fuel) (term tokens fuel')).
Proof.
  induction fuel as [|fuel (IHe & IHw & IHt)].
  { repeat split; intros; apply extends_timeout. }
  repeat split; (intros [|fuel'] Hle; [lia|]); simpl; mono.
Qed.

Lemma declaration_mono fuel fuel' :
  fuel <= fuel' -> extends (declaration tokens fuel) (declaration tokens fuel').
Proof.
  intros Hle. pose proof (proj1 (expression_mono fuel)) as He.
  unfold declaration. mono.
Qed.

Lemma assignment_mono fuel fuel' :
  fuel <= fuel' -> extends (assignment tokens fuel) (assignment tokens fuel').
Proof.
  intros Hle. pose proof (proj1 (expression_mono fuel)) as He.
  unfold assignment. mono.
Qed.

Lemma return_statement_mono fuel fuel' :
  fuel <= fuel' ->
  extends (return_statement tokens fuel) (return_statement tokens fuel').
Proof.
  intros Hle. pose proof (proj1 (expression_mono fuel)) as He.
  unfold return_statement. mono.
Qed.

Lemma statement_mono fuel :
  (forall fuel', fuel <= fuel' ->
                 extends (statement tokens fuel) (statement tokens fuel'))
  /\ (forall fuel', fuel <= fuel' ->
                    extends (if_statement tokens fuel) (if_statement tokens fuel'))
  /\ (forall fuel', fuel <= fuel' ->
                    extends (while_loop tokens fuel) (while_loop tokens fuel'))
  /\ (forall fuel', fuel <= fuel' ->
                    extends (for_loop tokens fuel) (for_loop tokens fuel'))
  /\ (forall fuel', fuel <= fuel' ->
                    extends (block tokens fuel) (block tokens fuel'))
  /\ (forall fuel', fuel <= fuel' ->
                    extends (block_while tokens fuel) (block_while tokens fuel')).
Proof.
  induction fuel as [|fuel (IHs & IHi & IHw & IHf & IHb & IHbw)].
  { repeat split; intros; apply extends_timeout. }
  repeat split; (intros [|fuel'] Hle; [lia|]); simpl;
    pose proof (proj1 (expression_mono fuel)) as He;
    pose proof (declaration_mono fuel) as Hd;
    pose proof (assignment_mono fuel) as Ha;
    pose proof (return_statement_mono fuel) as Hr;
    mono.
Qed.

Lemma parse_while_mono fuel fuel' :
  fuel <= fuel' -> extends (parse_while tokens fuel) (parse_while tokens fuel').
Proof.
  revert fuel'. induction fuel as [|fuel IH]; intros fuel' Hle.
  { apply extends_timeout. }
  destruct fuel' as [|fuel']; [lia|].
  pose proof (proj1 (statement_mono fuel)) as Hs.
  simpl. apply extends_guard. mono.
Qed.

Lemma parse_try_mono fuel fuel' :
  fuel <= fuel' -> extends (parse_try tokens fuel) (parse_try tokens fuel').
Proof.
  intros Hle.
  pose proof (proj1 (proj2 (proj2 (proj2 (proj2 (statement_mono fuel)))))) as Hb.
  pose proof (parse_while_mono fuel) as Hw.
  unfold parse_try. mono.
Qed.

End Monotone.

Lemma parse_fuel_mono tokens fuel fuel' :
  fuel <= fuel' -> parse_fuel fuel tokens <> Timeout ->
  parse_fuel fuel' tokens = parse_fuel fuel tokens.
Proof.
  intros Hle H. unfold parse_fuel in *.
  rewrite (parse_try_mono tokens fuel fuel' Hle 0); [reflexivity|].
  intros E. now rewrite E in H.
Qed.

(** With the budget of [parse] or more, [parse] prints its verdict. *)
Lemma parse_fuel_enough tokens fuel :
  budget tokens <= fuel -> exists o, parse_fuel fuel tokens = Printed o.
Proof.
  intros Hf. pose proof (parse_try_budget tokens fuel Hf) as H.
  unfold parse_fuel.
  destruct (parse_try tokens fuel 0) as [a p|[msg|]|]; simpl in H;
    try contradiction; simpl; eauto.
Qed.

End ParserFacts.

(** ** The rules settle on their results *)
Module RunFacts.
Import ParserFacts.

Lemma settled {A} (g : nat -> M A) (Q : A -> nat -> Prop) lo pos :
  (forall f f', f <= f' -> extends (g f) (g f')) ->
  ensures (g lo pos) Q ->
  forall f, lo <= f -> g f pos = g lo pos.
Proof.
  intros Hmono Hok f Hle. apply Hmono; [assumption|].
  intros E. now rewrite E in Hok.
Qed.

Lemma term_settled tokens pos fuel :
  2 * (List.length tokens - pos) + 1 <= fuel ->
  Parser.term tokens fuel pos = Run.term tokens pos.
Proof.
  intros Hf. unfold Run.term, Run.fuel_at.
  pose proof (proj2 (proj2 (expression_budget tokens _)) pos (le_n _)) as Hok.
  pose proof (fun f => proj2 (proj2 (expression_mono tokens f))) as Hmono.
  rewrite (settled _ _ _ _ Hmono Hok fuel) by assumption.
  rewrite (settled _ _ _ _ Hmono Hok (2 * _ + 4)) by lia.
  reflexivity.
Qed.

Lemma expression_while_settled tokens pos fuel :
  2 * (List.length tokens - pos) + 1 <= fuel ->
  Parser.expression_while tokens fuel pos = Run.expression_while tokens pos.
Proof.
  intros Hf. unfold Run.expression_while, Run.fuel_at.
  pose proof (proj1 (proj2 (expression_budget tokens _)) pos (le_n _)) as Hok.
  pose proof (fun f => proj1 (proj2 (expression_mono tokens f))) as Hmono.
  rewrite (settled _ _ _ _ Hmono Hok fuel) by assumption.
  rewrite (settled _ _ _ _ Hmono Hok (2 * _ + 4)) by lia.
  reflexivity.
Qed.

Lemma term_forward tokens pos pos' :
  Run.term tokens pos = Ok tt pos' -> pos < pos'.
Proof.
  intros H. unfold Run.term in H.
  pose proof (proj2 (proj2 (expression_budget tokens (Run.fuel_at tokens pos))) pos) as Hok.
  rewrite H in Hok. apply Hok. unfold Run.fuel_at. lia.
Qed.

Lemma peek_at_inside tokens pos kind value :
  peek_at tokens pos = (kind, value) -> kind <> "EOF" ->
  pos < List.length tokens /\ nth_error tokens pos = Some (kind, value).
Proof.
  intros H Hk. pose proof (peek_kind tokens pos) as Hin.
  rewrite H in Hin. specialize (Hin Hk). split; [assumption|].
  unfold peek_at in H. destruct (Nat.ltb_spec pos (List.length tokens)); [|lia].
  rewrite <- H. now apply nth_error_nth'.
Qed.

Lemma match_hit tokens pos kind value expected_value :
  peek_at tokens pos = (kind, value) ->
  match expected_value with None => true | Some v => value =? v end = true ->
  match_ tokens kind expected_value pos = Ok true (pos + 1).
Proof.
  intros H Hv. unfold match_, bind, peek. rewrite H, String.eqb_refl, Hv.
  reflexivity.
Qed.

Lemma previous_hit tokens pos tok :
  nth_error tokens pos = Some tok -> previous tokens (pos + 1) = Ok tok (pos + 1).
Proof.
  intros H. unfold previous, Py.getitem.
  assert (pos < List.length tokens) by (apply nth_error_Some; congruence).
  replace (Z.of_nat (pos + 1) - 1)%Z with (Z.of_nat pos) by lia.
  destruct (Z.leb_spec 0 (Z.of_nat pos)); [|lia].
  destruct (Z.ltb_spec (Z.of_nat pos) (Z.of_nat (List.length tokens))); [|lia].
  simpl. now rewrite Nat2Z.id, H.
Qed.

End RunFacts.

(** * The claims *)

(** ** C1: the message for a missing semicolon *)

(** C1 as stated fails: the message for "int x = 5" does not mention the
    semicolon. *)
Lemma C1_message_counterexample :
  ~ (exists msg, parse (scan "int x = 5") = Printed (Rejected msg)
                 /\ references_semicolon msg = true).
Proof.
  intros (msg & H & R). vm_compute in H. injection H as <-.
  vm_compute in R. discriminate R.
Qed.

(** C1 as amended: "int x = 5" is rejected; the rule that fails is
    [assignment] (the prologue of [parse] has consumed "int"), which
    returns [False] at the end of the tokens, and the message is the
    top-level loop's "Unexpected token" naming the end-of-input token. *)
Theorem C1_missing_semicolon_message :
  let tokens := scan "int x = 5" in
  tokens = [("KEYWORD", "int"); ("ID", "x"); ("OP", "="); ("NUMBER", "5")]
  /\ main_prologue tokens 0 = Ok false 1
  /\ assignment tokens (Run.fuel_at tokens 1) 1 = Ok false 4
  /\ Run.statement tokens 1 = Ok false 4
  /\ peek_at tokens 4 = ("EOF", "")
  /\ parse tokens = Printed (Rejected "Unexpected token: ('EOF', '')")
  /\ stdout (Rejected "Unexpected token: ('EOF', '')")
     = "Syntax error: Unexpected token: ('EOF', '')".
Proof. vm_compute. repeat split. Qed.

(** ** C2: operators that continue an expression *)

(** C2 as amended: in the loop of [expression], an OP token whose lexeme is
    one of + - * / % || && == != < <= > >= continues the chain: at a cursor
    where such an operator stands and a valid term follows it, the loop
    consumes the operator and the term and goes on from the end of that
    term. *)
Theorem C2_listed_operator_continues tokens pos op pos' :
  peek_at tokens pos = ("OP", op) ->
  mem op binary_operators = true ->
  Run.term tokens (pos + 1) = Ok tt pos' ->
  Run.expression_while tokens pos = Run.expression_while tokens pos'.
Proof.
  intros Hpeek Hop Hterm.
  destruct (RunFacts.peek_at_inside _ _ _ _ Hpeek) as [Hin Hnth]; [discriminate|].
  pose proof (RunFacts.term_forward _ _ _ Hterm) as Hfwd.
  unfold Run.expression_while at 1. unfold Run.fuel_at.
  replace (2 * (List.length tokens - pos) + 4)
    with (S (2 * (List.length tokens - pos) + 3)) by lia.
  cbn [Parser.expression_while]. unfold bind at 1.
  rewrite (RunFacts.match_hit _ _ _ _ None Hpeek eq_refl).
  unfold bind at 1. rewrite (RunFacts.previous_hit _ _ _ Hnth).
  cbn [snd]. rewrite Hop. unfold bind.
  rewrite RunFacts.term_settled, Hterm by lia.
  apply RunFacts.expression_while_settled. lia.
Qed.

(** The assignment operator is an OP token outside the listed lexemes:
    in "x = a = b;" the loop consumes the second "=" and stops there,
    leaving the term "b" unread, and the parse is rejected at "b". *)
Example assignment_operator_stops :
  let tokens := scan "x = a = b;" in
  peek_at tokens 3 = ("OP", "=")
  /\ Run.term tokens 4 = Ok tt 5
  /\ Run.expression_while tokens 3 = Ok tt 4
  /\ Run.expression_while tokens 5 = Ok tt 5
  /\ parse tokens = Printed (Rejected "Unexpected token: ('ID', 'b')").
Proof. vm_compute. repeat split. Qed.

(** C2 as stated fails: not every OP lexeme continues the chain. *)
Lemma C2_any_operator_counterexample :
  ~ (forall tokens pos op pos',
        peek_at tokens pos = ("OP", op) ->
        Run.term tokens (pos + 1) = Ok tt pos' ->
        Run.expression_while tokens pos = Run.expression_while tokens pos').
Proof.
  intros H.
  specialize (H (scan "x = a = b;") 3 "=" 5 eq_refl eq_refl).
  vm_compute in H. discriminate H.
Qed.

Lemma C2_witness :
  let tokens := scan "x = a + b;" in
  peek_at tokens 3 = ("OP", "+")
  /\ mem "+" binary_operators = true
  /\ Run.term tokens (3 + 1) = Ok tt 5
  /\ Run.expression_while tokens 3 = Run.expression_while tokens 5.
Proof.
  cbv zeta. do 3 (split; [vm_compute; reflexivity|]).
  apply (C2_listed_operator_continues (scan "x = a + b;") 3 "+" 5);
    vm_compute; reflexivity.
Defined.

(** ** C3: the increment of a for loop *)

(** C3: in "for (int i = 0; i < 10; i = i + 1) { }" the increment
    "i = i + 1" makes [assignment] return [False] at the ")" where it wants
    ";"; [for_loop] drops that result, returns [True], and the program is
    accepted. *)
Theorem C3_for_increment_result_discarded :
  let tokens := scan "for (int i = 0; i < 10; i = i + 1) { }" in
  peek_at tokens 16 = ("RPAREN", ")")
  /\ assignment tokens (budget tokens) 11 = Ok false 16
  /\ for_loop tokens (budget tokens) 0 = Ok true 19
  /\ List.length tokens = 19
  /\ parse tokens = Printed Accepted.
Proof. vm_compute. repeat split. Qed.

(** ** C4: the main prologue is not rolled back *)

(** C4: when the tokens fit only the first [k] < 4 entries of
    int main ( ), the prologue reports no match with the cursor left at
    [k], and [parse] is the top-level statement loop entered at [k]. *)
Theorem C4_prologue_not_rolled_back tokens :
  let k := matched_prefix prologue_pattern tokens 0 in
  k < 4 ->
  main_prologue tokens 0 = Ok false k /\ parse tokens = Run.toplevel tokens k.
Proof.
  intros k Hk.
  assert (Hp : main_prologue tokens 0 = Ok false k).
  { subst k. revert Hk. unfold main_prologue, and_, match_, bind, peek.
    unfold prologue_pattern. cbn [matched_prefix]. unfold fits.
    destruct (peek_at tokens 0) as [k0 v0]. cbn [fst snd].
    destruct ((k0 =? "KEYWORD") && (v0 =? "int")); [|reflexivity].
    cbn [advance ret Nat.add].
    destruct (peek_at tokens 1) as [k1 v1]. cbn [fst snd].
    destruct ((k1 =? "KEYWORD") && (v1 =? "main")); [|reflexivity].
    cbn [advance ret Nat.add].
    destruct (peek_at tokens 2) as [k2 v2]. cbn [fst snd].
    destruct ((k2 =? "LPAREN") && true); [|reflexivity].
    cbn [advance ret Nat.add].
    destruct (peek_at tokens 3) as [k3 v3]. cbn [fst snd].
    destruct ((k3 =? "RPAREN") && true); [|reflexivity].
    intros H. lia. }
  split; [assumption|].
  unfold parse, parse_fuel, parse_try, Run.toplevel, bind. now rewrite Hp.
Qed.

Lemma C4_witness :
  matched_prefix prologue_pattern (scan "int main x = 5;") 0 < 4
  /\ main_prologue (scan "int main x = 5;") 0 = Ok false 2
  /\ parse (scan "int main x = 5;") = Run.toplevel (scan "int main x = 5;") 2.
Proof.
  split; [vm_compute; lia|].
  apply (C4_prologue_not_rolled_back (scan "int main x = 5;")).
  vm_compute. lia.
Defined.

(** The cursor left behind is visible: entered at 2 the loop accepts
    "x = 5;", entered at 0 it would reject the tokens at "main". *)
Example prologue_consumes_int_main :
  let tokens := scan "int main x = 5;" in
  parse tokens = Printed Accepted
  /\ Run.toplevel tokens 0
     = Printed (Rejected "Unexpected token: ('KEYWORD', 'main')").
Proof. vm_compute. split; reflexivity. Qed.

(** ** C5: tokens and verdict of a declaration *)

(** C5: "int x = 5;" gives the five tokens KEYWORD int, ID x, OP =,
    NUMBER 5, SEMI ; in that order, and [parse] accepts them. *)
Theorem C5_declaration_accepted :
  scan "int x = 5;"
  = [("KEYWORD", "int"); ("ID", "x"); ("OP", "="); ("NUMBER", "5"); ("SEMI", ";")]
  /\ parse [("KEYWORD", "int"); ("ID", "x"); ("OP", "="); ("NUMBER", "5"); ("SEMI", ";")]
     = Printed Accepted.
Proof. vm_compute. split; reflexivity. Qed.

(** ** C7: blank input *)

(** C7: a text of spaces, tabs and newlines only (the empty text
    included) has no tokens, and the empty token list is accepted. *)
Theorem C7_blank_input s :
  whitespace_only s = true ->
  scan s = [] /\ parse [] = Printed Accepted.
Proof.
  intros H. split; [now apply ScannerFacts.scan_whitespace | reflexivity].
Qed.

Lemma C7_witness :
  scan (String " " (String "009" (String "010" " "))) = []
  /\ parse [] = Printed Accepted.
Proof.
  apply (C7_blank_input (String " " (String "009" (String "010" " ")))).
  reflexivity.
Defined.

(** ** C8: keywords *)

(** C8: a token whose lexeme is one of the twelve keywords has kind
    KEYWORD, hence never kind ID; "return" is a KEYWORD token and
    "returning" an ID token. *)
Theorem C8_keywords_reclassified :
  (forall s kind lex,
      In (kind, lex) (scan s) -> mem lex keywords = true ->
      kind = "KEYWORD" /\ kind <> "ID")
  /\ keywords = ["int"; "float"; "double"; "bool"; "if"; "else"; "while";
                 "for"; "true"; "false"; "return"; "main"]
  /\ scan "return" = [("KEYWORD", "return")]
  /\ scan "returning" = [("ID", "returning")].
Proof.
  split; [|repeat split].
  intros s kind lex Hin Hk.
  rewrite (ScannerFacts.scan_keyword s kind lex Hin Hk). split; [reflexivity|discriminate].
Qed.

Lemma C8_witness :
  In ("KEYWORD", "main") (scan "int main")
  /\ mem "main" keywords = true
  /\ "KEYWORD" = "KEYWORD" /\ "KEYWORD" <> "ID".
Proof.
  assert (Hin : In ("KEYWORD", "main") (scan "int main")) by (vm_compute; auto).
  assert (Hk : mem "main" keywords = true) by reflexivity.
  split; [exact Hin|]. split; [exact Hk|].
  exact (proj1 C8_keywords_reclassified "int main" "KEYWORD" "main" Hin Hk).
Defined.

(** ** C9: two-character operators *)

(** C9: each two-character operator at the start of a text is read as
    one OP token, whatever follows; "<=" alone is the single token
    OP "<=". *)
Theorem C9_two_character_operators :
  Forall (fun op => forall s, scan (op ++ s) = ("OP", op) :: scan s)
    ["=="; "!="; "<="; ">="; "&&"; "||"; "++"; "--"]
  /\ scan "<=" = [("OP", "<=")].
Proof.
  split; [|reflexivity].
  repeat (apply Forall_cons;
          [intros s; apply ScannerFacts.scan_two_characters; reflexivity|]).
  apply Forall_nil.
Qed.

(** ** C10: characters no rule matches *)

(** C10: [tokenize] finishes on every text (the scan of [finditer] ends
    within any budget above the length of the text); where no rule matches
    at a character, that character adds no token and raises nothing: the
    result is that of the text after it.  So it is for every character
    that starts no rule; "@" alone has no tokens. *)
Theorem C10_unmatched_characters_skipped :
  (forall s extra,
      finditer_fuel (S (String.length s) + extra) token_regex s
      = Some (finditer token_regex s))
  /\ (forall c s, match_at token_regex (String c s) = None ->
                  scan (String c s) = scan s)
  /\ (forall c s, first token_regex c = false -> scan (String c s) = scan s)
  /\ scan "@" = [].
Proof.
  repeat split.
  - intros s extra. apply ReFacts.finditer_fuel_enough. lia.
  - intros c s H. now apply ScannerFacts.scan_skip.
  - intros c s H. now apply ScannerFacts.scan_unmatched_char.
Qed.

Lemma C10_witness :
  match_at token_regex "!x1" = None /\ scan "!x1" = scan "x1"
  /\ first token_regex "@" = false /\ scan "@x1" = scan "x1".
Proof.
  assert (H : match_at token_regex "!x1" = None) by reflexivity.
  assert (F : first token_regex "@" = false) by reflexivity.
  split; [exact H|]. split.
  - exact (proj1 (proj2 C10_unmatched_characters_skipped) "!"%char "x1" H).
  - split; [exact F|].
    exact (proj1 (proj2 (proj2 C10_unmatched_characters_skipped)) "@"%char "x1" F).
Defined.


(** * Further properties of the parser *)
Module ParserShape.
Import Shape.

Lemma meets_bind {A B} tokens (m : M A) (k : A -> M B) pos Q1 Q :
  meets tokens (m pos) Q1 ->
  (forall a p, Q1 a p -> meets tokens (k a p) Q) ->
  meets tokens (bind m k pos) Q.
Proof.
  unfold bind. destruct (m pos) as [a p|[msg|]|]; simpl; auto; contradiction.
Qed.

Lemma meets_weaken {A} tokens (r : result A) (Q1 Q2 : A -> nat -> Prop) :
  meets tokens r Q1 -> (forall a p, Q1 a p -> Q2 a p) -> meets tokens r Q2.
Proof. destruct r as [a p|[msg|]|]; simpl; auto. Qed.

Lemma meets_ret {A} tokens (a : A) pos (Q : A -> nat -> Prop) :
  Q a pos -> meets tokens (ret a pos) Q.
Proof. auto. Qed.

Lemma meets_ret_eq {A} tokens (a : A) pos :
  meets tokens (ret a pos) (fun a' p => a' = a /\ p = pos).
Proof. simpl. auto. Qed.

Lemma meets_raise {A} tokens msg pos (Q : A -> nat -> Prop) :
  known_message tokens msg -> meets tokens (raise msg pos) Q.
Proof. auto. Qed.

Lemma known_fixed tokens msg : In msg fixed_messages -> known_message tokens msg.
Proof. now left. Qed.

Lemma known_token tokens pos msg :
  In msg ["Unexpected token: " ++ Py.repr_pair (peek_at tokens pos);
          "Unexpected token in term: " ++ Py.repr_pair (peek_at tokens pos);
          "Invalid statement in block: " ++ Py.repr_pair (peek_at tokens pos)] ->
  known_message tokens msg.
Proof. right. eauto. Qed.

Section Shapes.
Variable tokens : list token.
Let L := List.length tokens.
Let K := kind_at tokens.

Lemma meets_match ty v pos :
  ty <> "EOF" ->
  meets tokens (match_ tokens ty v pos)
    (fun b p => if b then p = pos + 1 /\ pos < L /\ K pos = ty
                else p = pos /\ (v = None -> K pos <> ty)).
Proof.
  intros Hty. unfold match_, bind, peek, K, kind_at.
  pose proof (ParserFacts.peek_kind tokens pos) as Hk.
  destruct (peek_at tokens pos) as [tok_type tok_val]. simpl in *.
  destruct (String.eqb_spec tok_type ty) as [->|Hne]; simpl.
  - destruct v as [v|]; [destruct (tok_val =? v)|]; simpl; auto.
    split; [reflexivity | discriminate].
  - auto.
Qed.

Lemma meets_previous pos :
  0 < pos <= L -> meets tokens (previous tokens pos) (fun _ p => p = pos).
Proof.
  intros H. unfold previous, Py.getitem. fold L.
  replace (Z.of_nat pos - 1)%Z with (Z.of_nat (pos - 1)) by lia.
  destruct (Z.leb_spec 0 (Z.of_nat (pos - 1))); [|lia].
  destruct (Z.ltb_spec (Z.of_nat (pos - 1)) (Z.of_nat L)); [|lia].
  simpl. rewrite Nat2Z.id.
  destruct (nth_error tokens (pos - 1)) eqn:E; simpl; [reflexivity|].
  apply nth_error_None in E. fold L in E. lia.
Qed.

Lemma meets_peek pos :
  meets tokens (peek tokens pos)
    (fun tok p => p = pos /\ tok = peek_at tokens pos
                  /\ (K pos <> "EOF" -> pos < L)).
Proof. simpl. repeat split. apply ParserFacts.peek_kind. Qed.

Lemma meets_advance pos :
  meets tokens (advance pos) (fun _ p => p = pos + 1).
Proof. reflexivity. Qed.

Ltac known :=
  first [ apply known_fixed; simpl; tauto
        | eapply known_token; simpl; eauto ].

Ltac tidy :=
  cbn [negb];
  repeat match goal with
    | H : _ /\ _ |- _ => destruct H
    | H : ?x = ?x -> _ |- _ => specialize (H eq_refl)
    | H : false = true -> _ |- _ => clear H
    | H : true = false -> _ |- _ => clear H
    end.

(** From a true test of the kind under the cursor: the cursor is inside
    the tokens. *)
Ltac kinds :=
  unfold K, kind_at in *;
  repeat match goal with
    | H : _ || _ = true |- _ => apply orb_true_iff in H; destruct H
    | H : _ && _ = true |- _ => apply andb_prop in H; destruct H
    | H : (_ =? _) = true |- _ => apply String.eqb_eq in H
    | H : false = true |- _ => discriminate H
    end;
  simpl fst in *; simpl snd in *;
  try match goal with
    | E : fst (peek_at tokens ?p) = _,
      H : fst (peek_at tokens ?p) <> "EOF" -> _ |- _ =>
        rewrite E in H; specialize (H ltac:(discriminate))
    | E : ?k = _, H : ?k <> "EOF" -> _ |- _ =>
        rewrite E in H; specialize (H ltac:(discriminate))
    end.

Ltac stride :=
  tidy;
  lazymatch goal with
  | |- meets _ (bind (bind _ _) _ _) _ => rewrite ParserFacts.bind_assoc
  | |- meets _ (bind (match_ _ _ _) _ _) _ =>
      eapply meets_bind;
      [apply meets_match; discriminate | cbv beta; intros [] ? ?]
  | |- meets _ (bind (peek _) _ _) _ =>
      eapply meets_bind;
      [apply meets_peek | cbv beta; intros ? ? (-> & -> & ?)]
  | |- meets _ (bind advance _ _) _ =>
      eapply meets_bind;
      [apply meets_advance | cbv beta; intros ? ? ->]
  | |- meets _ (bind (previous _) _ _) _ =>
      eapply meets_bind;
      [apply meets_previous; lia | cbv beta; intros ? ? ->]
  | |- meets _ (bind (if negb ?b then _ else _) _ _) _ => destruct b
  | |- meets _ (bind (if ?b then _ else _) _ _) _ => destruct b eqn:?
  | |- meets _ (bind (raise _) _ _) _ => simpl; known
  | |- meets _ (bind (ret _) _ _) _ =>
      eapply meets_bind; [apply meets_ret_eq | cbv beta; intros ? ? [-> ->]]
  | |- meets _ (bind _ _ _) _ =>
      match goal with
      | H : forall pos : nat, _ -> meets _ _ _ |- _ =>
          eapply meets_bind; [apply H; lia | cbv beta; intros ? ? ?]
      end
  | |- meets _ (ret _ _) _ => apply meets_ret
  | |- meets _ (raise _ _) _ => apply meets_raise; known
  | |- meets _ (advance _) _ =>
      eapply meets_weaken; [apply meets_advance | cbv beta; intros ? ? ->]
  | |- meets _ ((if negb ?b then _ else _) _) _ => destruct b
  | |- meets _ ((if ?b then _ else _) _) _ => destruct b eqn:?
  | |- meets _ ((let '(_, _) := ?t in _) _) _ => destruct t eqn:?
  | |- meets _ _ _ =>
      match goal with
      | H : forall pos : nat, _ -> meets _ _ _ |- _ =>
          eapply meets_weaken; [apply H; lia | cbv beta; intros ? ? ?]
      end
  end.

(** [expression], its loop and [term]: the cursor stays within the
    tokens, a term moves it forward, and only known messages are raised. *)
Lemma expression_shape fuel :
  (forall pos, 0 <= pos ->
               meets tokens (expression tokens fuel pos) (fun _ p => pos < p <= L))
  /\ (forall pos, pos <= L ->
                  meets tokens (expression_while tokens fuel pos)
                    (fun _ p => pos <= p <= L))
  /\ (forall pos, 0 <= pos ->
                  meets tokens (term tokens fuel pos) (fun _ p => pos < p <= L)).
Proof.
  induction fuel as [|fuel (IHe & IHw & IHt)].
  { repeat split; intros; exact I. }
  repeat split; intros pos Hf; simpl; repeat stride; tidy; try lia.
  kinds; lia.
Qed.

Lemma expression_inside fuel pos :
  0 <= pos -> meets tokens (expression tokens fuel pos) (fun _ p => pos < p <= L).
Proof. apply expression_shape. Qed.

Lemma declaration_shape fuel pos :
  pos < L ->
  meets tokens (declaration tokens fuel pos) (fun _ p => pos < p <= L).
Proof.
  intros Hf. pose proof (expression_inside fuel) as He.
  unfold declaration. repeat stride; tidy; lia.
Qed.

Lemma assignment_shape fuel pos :
  pos <= L ->
  meets tokens (assignment tokens fuel pos)
    (fun _ p => pos < p <= L + 1 /\ (pos < L -> p <= L)).
Proof.
  intros Hf. pose proof (expression_inside fuel) as He.
  unfold assignment. repeat stride; tidy; lia.
Qed.

Lemma return_statement_shape fuel pos :
  0 <= pos ->
  meets tokens (return_statement tokens fuel pos)
    (fun b p => b = true /\ pos < p <= L).
Proof.
  intros Hf. pose proof (expression_inside fuel) as He.
  unfold return_statement. repeat stride; tidy; try split; try lia; auto.
Qed.

(** The statement rules and [block]. *)
Lemma statement_shape fuel :
  (forall pos, pos <= L ->
               meets tokens (statement tokens fuel pos)
                 (fun b p =>
                    pos <= p <= L
                    /\ (b = true -> pos < p)
                    /\ (b = false ->
                        p = pos \/ K pos = "ID"
                        \/ (K pos = "KEYWORD"
                            /\ mem (snd (peek_at tokens pos)) type_keywords = true))))
  /\ (forall pos, 0 <= pos ->
                  meets tokens (if_statement tokens fuel pos)
                    (fun b p => b = true /\ pos < p <= L))
  /\ (forall pos, 0 <= pos ->
                  meets tokens (while_loop tokens fuel pos)
                    (fun b p => b = true /\ pos < p <= L))
  /\ (forall pos, 0 <= pos ->
                  meets tokens (for_loop tokens fuel pos)
                    (fun b p => b = true /\ pos < p <= L))
  /\ (forall pos, 0 <= pos ->
                  meets tokens (block tokens fuel pos)
                    (fun b p =>
                       if b then K pos = "LBRACE" /\ K (p - 1) = "RBRACE"
                                 /\ pos + 2 <= p <= L
                       else p = pos /\ K pos <> "LBRACE"))
  /\ (forall pos, pos <= L ->
                  meets tokens (block_while tokens fuel pos)
                    (fun _ p => K (p - 1) = "RBRACE" /\ pos < p <= L)).
Proof.
  induction fuel as [|fuel (IHs & IHi & IHw & IHf & IHb & IHbw)].
  { repeat split; intros; exact I. }
  pose proof (expression_inside fuel) as He.
  pose proof (declaration_shape fuel) as Hd.
  pose proof (assignment_shape fuel) as Ha.
  pose proof (return_statement_shape fuel) as Hr.
  repeat split; intros pos Hf; simpl.
  - stride. stride.
    assert (HK : K pos = s) by (unfold K, kind_at; now rewrite Heqt0).
    assert (HV : snd (peek_at tokens pos) = s0) by now rewrite Heqt0.
    rewrite HK in H.
    repeat (stride; try (kinds; subst)).
    all: try (eapply meets_weaken; [eauto with arith | cbv beta; intros ? ? ?]).
    all: tidy; subst; repeat split; try lia; try (intros; discriminate);
      try (intros; lia).
    all: intros _;
      first [ left; reflexivity
            | right; left; assumption
            | right; right; split; [assumption|];
              match goal with H : snd _ = _ |- _ => rewrite H end; reflexivity ].
  - repeat stride; tidy; subst; repeat split; try lia.
  - repeat stride; tidy; subst; repeat split; try lia.
  - repeat stride; tidy; subst; repeat split; try lia.
  - repeat stride; tidy; subst; repeat split; try lia; auto.
  - repeat stride; tidy; subst; repeat split; try lia; auto.
    now replace (pos + 1 - 1) with pos by lia.
Qed.

Lemma parse_while_shape fuel pos :
  pos <= L -> meets tokens (parse_while tokens fuel pos) (fun _ p => p = L).
Proof.
  revert pos. induction fuel as [|fuel IH]; intros pos Hf; [exact I|].
  pose proof (proj1 (statement_shape fuel)) as Hs.
  simpl. fold L. destruct (Nat.ltb_spec pos L); [|simpl; lia].
  repeat stride; tidy; lia.
Qed.

Lemma parse_try_shape fuel :
  meets tokens (parse_try tokens fuel 0) (fun _ p => p = L).
Proof.
  pose proof (proj1 (proj2 (proj2 (proj2 (proj2 (statement_shape fuel)))))) as Hb.
  pose proof (parse_while_shape fuel) as Hw.
  unfold parse_try, main_prologue, and_. repeat stride; tidy; lia.
Qed.

End Shapes.

End ParserShape.

Module ParserProps.
Import Shape ParserFacts ParserShape.

Lemma meets_ok {A} tokens (r : result A) Q a p :
  meets tokens r Q -> r = Ok a p -> Q a p.
Proof. intros H ->. exact H. Qed.

Lemma meets_raised {A} tokens (r : result A) Q msg :
  meets tokens r Q -> r = Raise (SyntaxError msg) -> known_message tokens msg.
Proof. intros H ->. exact H. Qed.

(** What holds of every result within the budget holds of every result:
    a larger budget does not change a call that has returned. *)
Lemma transfer {A} (g : nat -> M A) (Q : A -> nat -> Prop) bound pos :
  (forall f f', f <= f' -> extends (g f) (g f')) ->
  (forall f, bound <= f -> ensures (g f pos) Q) ->
  forall fuel a p, g fuel pos = Ok a p -> Q a p.
Proof.
  intros Hmono Hok fuel a p E.
  pose proof (Hok (Nat.max fuel bound) (Nat.le_max_r _ _)) as H.
  rewrite (Hmono fuel (Nat.max fuel bound) (Nat.le_max_l _ _) pos) in H
    by (rewrite E; discriminate).
  now rewrite E in H.
Qed.

Lemma statement_forward tokens fuel pos b p :
  statement tokens fuel pos = Ok b p ->
  pos <= p /\ (b = true -> pos < List.length tokens /\ pos < p).
Proof.
  intros E.
  refine (transfer (statement tokens)
            (fun b p => pos <= p /\ (b = true -> pos < List.length tokens /\ pos < p))
            (2 * (List.length tokens - pos) + 3) pos _ _ fuel b p E).
  - intros f f' Hle. now apply (proj1 (statement_mono tokens f)).
  - intros f Hf. now apply (proj1 (statement_budget tokens f)).
Qed.

(** At or past the end no statement rule applies. *)
Lemma statement_past_end tokens fuel pos b p :
  List.length tokens <= pos ->
  statement tokens fuel pos = Ok b p -> b = false /\ p = pos.
Proof.
  intros Hle. destruct fuel as [|fuel]; [discriminate|].
  simpl. unfold bind, peek. rewrite (peek_at_end tokens pos Hle). simpl.
  unfold ret. intros E. injection E as <- <-. auto.
Qed.

(** The budget of [parse] is at least four. *)
Lemma budget_S4 tokens : exists f, budget tokens = S (S (S (S f))).
Proof. exists (2 * List.length tokens). unfold budget. lia. Qed.

Lemma prologue_first_miss tokens :
  (fst (peek_at tokens 0) =? "KEYWORD") && (snd (peek_at tokens 0) =? "int") = false ->
  main_prologue tokens 0 = Ok false 0.
Proof.
  intros H. unfold main_prologue, and_, match_, bind, peek.
  destruct (peek_at tokens 0) as [k v]. cbn [fst snd] in H. now rewrite H.
Qed.

Lemma parse_try_miss tokens fuel k :
  main_prologue tokens 0 = Ok false k ->
  parse_try tokens fuel 0 = parse_while tokens fuel k.
Proof. intros H. unfold parse_try, bind. now rewrite H. Qed.

Lemma parse_while_reject tokens fuel pos p :
  pos < List.length tokens ->
  statement tokens fuel pos = Ok false p ->
  parse_while tokens (S fuel) pos
  = Raise (SyntaxError ("Unexpected token: " ++ Py.repr_pair (peek_at tokens p))).
Proof.
  intros Hlt H. cbn [parse_while].
  destruct (Nat.ltb_spec pos (List.length tokens)); [|lia].
  unfold bind, peek. now rewrite H.
Qed.

Lemma statement_no_rule tokens fuel pos :
  mem (fst (peek_at tokens pos)) ["KEYWORD"; "ID"] = false ->
  statement tokens (S fuel) pos = Ok false pos.
Proof.
  cbn [statement mem existsb]. unfold bind, peek.
  destruct (peek_at tokens pos) as [k v]. cbn [fst]. intros H.
  apply orb_false_iff in H as [Hk H]. apply orb_false_iff in H as [Hi _].
  now rewrite Hk, Hi.
Qed.

Lemma block_miss tokens fuel pos :
  Shape.kind_at tokens pos <> "LBRACE" -> block tokens (S fuel) pos = Ok false pos.
Proof.
  intros H. cbn [block]. unfold match_, bind, peek.
  unfold Shape.kind_at in H. destruct (peek_at tokens pos) as [k v]. cbn [fst] in H.
  destruct (String.eqb_spec k "LBRACE") as [->|_]; [now elim H | reflexivity].
Qed.

Lemma parse_try_main_no_block tokens fuel k p :
  main_prologue tokens 0 = Ok true k ->
  block tokens fuel k = Ok false p ->
  parse_try tokens fuel 0 = Raise (SyntaxError "Missing block after main()").
Proof.
  intros H1 H2. unfold parse_try, bind. now rewrite H1, H2.
Qed.

Lemma match_kind_hit tokens ty pos :
  Shape.kind_at tokens pos = ty -> match_ tokens ty None pos = Ok true (pos + 1).
Proof.
  unfold Shape.kind_at, match_, bind, peek. destruct (peek_at tokens pos) as [k v].
  cbn [fst]. intros ->. now rewrite String.eqb_refl.
Qed.

Lemma match_kind_miss tokens ty pos :
  Shape.kind_at tokens pos <> ty -> match_ tokens ty None pos = Ok false pos.
Proof.
  unfold Shape.kind_at, match_, bind, peek. destruct (peek_at tokens pos) as [k v].
  cbn [fst]. intros H. destruct (String.eqb_spec k ty); [contradiction | reflexivity].
Qed.

Lemma term_atom tokens fuel pos :
  mem (Shape.kind_at tokens pos) atoms = true ->
  term tokens (S fuel) pos = Ok tt (pos + 1).
Proof.
  intros H. cbn [term]. unfold bind at 1. unfold peek.
  unfold Shape.kind_at, atoms in H. now rewrite H.
Qed.

Lemma term_paren tokens fuel pos p :
  Shape.kind_at tokens pos = "LPAREN" ->
  expression tokens fuel (pos + 1) = Ok tt p ->
  Shape.kind_at tokens p = "RPAREN" ->
  term tokens (S fuel) pos = Ok tt (p + 1).
Proof.
  intros Hl He Hr. cbn [term]. unfold bind at 1. unfold peek.
  unfold Shape.kind_at in Hl. rewrite Hl. cbn [mem existsb String.eqb Ascii.eqb Bool.eqb orb].
  unfold bind at 1. rewrite (match_kind_hit tokens "LPAREN" pos Hl).
  unfold bind at 1. rewrite He.
  unfold bind at 1. now rewrite (match_kind_hit tokens "RPAREN" p Hr).
Qed.

Lemma expression_while_stop tokens fuel pos :
  Shape.kind_at tokens pos <> "OP" ->
  expression_while tokens (S fuel) pos = Ok tt pos.
Proof.
  intros H. cbn [expression_while]. unfold bind.
  now rewrite (match_kind_miss tokens "OP" pos H).
Qed.

Lemma expression_while_go tokens fuel pos p :
  Shape.kind_at tokens pos = "OP" ->
  mem (snd (peek_at tokens pos)) binary_operators = true ->
  term tokens fuel (pos + 1) = Ok tt p ->
  expression_while tokens (S fuel) pos = expression_while tokens fuel p.
Proof.
  intros Hk Hop Ht. cbn [expression_while]. unfold bind at 1.
  rewrite (match_kind_hit tokens "OP" pos Hk).
  destruct (peek_at tokens pos) as [k v] eqn:Hp.
  destruct (RunFacts.peek_at_inside tokens pos k v Hp) as [_ Hnth].
  { unfold Shape.kind_at in Hk. rewrite Hp in Hk. cbn [fst] in Hk. now subst k. }
  unfold bind at 1. rewrite (RunFacts.previous_hit tokens pos (k, v) Hnth).
  cbn [snd] in *. rewrite Hop. unfold bind. now rewrite Ht.
Qed.

(** Parentheses nested to any depth around one operand. *)
Lemma nested_term tokens n : forall pos fuel,
    (forall i, i < n -> Shape.kind_at tokens (pos + i) = "LPAREN") ->
    mem (Shape.kind_at tokens (pos + n)) atoms = true ->
    (forall i, i < n -> Shape.kind_at tokens (pos + n + 1 + i) = "RPAREN") ->
    2 * n + 1 <= fuel ->
    term tokens fuel pos = Ok tt (pos + 2 * n + 1).
Proof.
  induction n as [|n IH]; intros pos fuel Hl Ha Hr Hf.
  - destruct fuel as [|fuel]; [lia|].
    rewrite Nat.add_0_r in *. now apply term_atom.
  - destruct fuel as [|[|fuel]]; try lia.
    replace (pos + 2 * S n + 1) with (pos + 2 * n + 2 + 1) by lia.
    apply term_paren.
    + specialize (Hl 0). rewrite Nat.add_0_r in Hl. apply Hl. lia.
    + cbn [expression]. unfold bind.
      rewrite (IH (pos + 1) fuel).
      * replace (pos + 1 + 2 * n + 1) with (pos + 2 * n + 2) by lia.
        destruct fuel as [|fuel]; [lia|].
        apply expression_while_stop.
        specialize (Hr n). replace (pos + S n + 1 + n) with (pos + 2 * n + 2) in Hr by lia.
        rewrite Hr by lia. discriminate.
      * intros i Hi. replace (pos + 1 + i) with (pos + S i) by lia. apply Hl. lia.
      * replace (pos + 1 + n) with (pos + S n) by lia. exact Ha.
      * intros i Hi. replace (pos + 1 + n + 1 + i) with (pos + S n + 1 + i) by lia.
        apply Hr. lia.
      * lia.
    + specialize (Hr n). replace (pos + S n + 1 + n) with (pos + 2 * n + 2) in Hr by lia.
      apply Hr. lia.
Qed.

(** A chain of [n] listed operators, each followed by one operand. *)
Lemma chain_while tokens n : forall pos fuel,
    (forall i, i < n ->
               Shape.kind_at tokens (pos + 2 * i) = "OP"
               /\ mem (snd (peek_at tokens (pos + 2 * i))) binary_operators = true
               /\ mem (Shape.kind_at tokens (pos + 2 * i + 1)) atoms = true) ->
    Shape.kind_at tokens (pos + 2 * n) <> "OP" ->
    n + 1 <= fuel ->
    expression_while tokens fuel pos = Ok tt (pos + 2 * n).
Proof.
  induction n as [|n IH]; intros pos fuel Hops Hend Hf.
  - destruct fuel as [|fuel]; [lia|].
    rewrite Nat.add_0_r in *. now apply expression_while_stop.
  - destruct fuel as [|[|fuel]]; try lia.
    destruct (Hops 0) as (Hk & Hop & Ha); [lia|].
    rewrite Nat.add_0_r in Hk, Hop, Ha.
    rewrite (expression_while_go tokens (S fuel) pos (pos + 1 + 1) Hk Hop)
      by now apply term_atom.
    rewrite (IH (pos + 1 + 1) (S fuel)).
    + f_equal. lia.
    + intros i Hi. destruct (Hops (S i)) as (Hk' & Hop' & Ha'); [lia|].
      replace (pos + 1 + 1 + 2 * i) with (pos + 2 * S i) by lia. auto.
    + replace (pos + 1 + 1 + 2 * n) with (pos + 2 * S n) by lia. exact Hend.
    + lia.
Qed.

End ParserProps.

(** X1: no rule moves the cursor back.  A term and an expression that
    return have moved it forward and left it within the tokens; a block
    leaves it where it was or further; a statement that returns [True]
    started on a token and moved the cursor forward. *)
Theorem X1_cursor_only_forward tokens fuel pos :
  (forall u p, term tokens fuel pos = Ok u p -> pos < p <= List.length tokens)
  /\ (forall u p, expression tokens fuel pos = Ok u p ->
                  pos < p <= List.length tokens)
  /\ (forall b p, block tokens fuel pos = Ok b p -> pos <= p)
  /\ (forall b p, statement tokens fuel pos = Ok b p ->
                  pos <= p /\ (b = true -> pos < List.length tokens /\ pos < p)).
Proof.
  split; [|split; [|split]].
  - intros u p H.
    exact (ParserProps.meets_ok tokens _ _ u p
             (proj2 (proj2 (ParserShape.expression_shape tokens fuel)) pos
                (Nat.le_0_l _)) H).
  - intros u p H.
    exact (ParserProps.meets_ok tokens _ _ u p
             (proj1 (ParserShape.expression_shape tokens fuel) pos
                (Nat.le_0_l _)) H).
  - intros b p H.
    pose proof (ParserProps.meets_ok tokens _ _ b p
                  (proj1 (proj2 (proj2 (proj2 (proj2
                     (ParserShape.statement_shape tokens fuel))))) pos
                     (Nat.le_0_l _)) H) as Hb.
    cbv beta in Hb. destruct b; lia.
  - intros b p H. now apply ParserProps.statement_forward in H.
Qed.

Lemma X1_witness :
  let tokens := scan "x = (1 + 2);" in
  statement tokens 20 0 = Ok true 8 /\ 0 <= 8 /\ (true = true -> 0 < List.length tokens /\ 0 < 8).
Proof.
  assert (H : statement (scan "x = (1 + 2);") 20 0 = Ok true 8) by (vm_compute; reflexivity).
  split; [exact H|].
  exact (proj2 (proj2 (proj2 (X1_cursor_only_forward (scan "x = (1 + 2);") 20 0)))
           true 8 H).
Defined.

(** X2: when the body of [parse] ends without an exception the cursor
    stands exactly at the end of the tokens: acceptance means that every
    token was consumed. *)
Theorem X2_accepted_consumes_all tokens :
  (forall fuel u p, parse_try tokens fuel 0 = Ok u p -> p = List.length tokens)
  /\ (parse tokens = Printed Accepted ->
      parse_try tokens (budget tokens) 0 = Ok tt (List.length tokens)).
Proof.
  assert (H : forall fuel u p, parse_try tokens fuel 0 = Ok u p -> p = List.length tokens).
  { intros fuel u p E.
    exact (ParserProps.meets_ok tokens _ _ u p
             (ParserShape.parse_try_shape tokens fuel) E). }
  split; [exact H|].
  unfold parse, parse_fuel. intros E.
  destruct (parse_try tokens (budget tokens) 0) as [[] p|[msg|]|] eqn:Et;
    try discriminate E.
  now rewrite (H _ _ _ Et).
Qed.

Lemma X2_witness :
  parse (scan "while (x < 3) { x = x + 1; }") = Printed Accepted
  /\ parse_try (scan "while (x < 3) { x = x + 1; }")
       (budget (scan "while (x < 3) { x = x + 1; }")) 0
     = Ok tt (List.length (scan "while (x < 3) { x = x + 1; }")).
Proof.
  assert (H : parse (scan "while (x < 3) { x = x + 1; }") = Printed Accepted)
    by (vm_compute; reflexivity).
  split; [exact H|].
  exact (proj2 (X2_accepted_consumes_all (scan "while (x < 3) { x = x + 1; }")) H).
Defined.

(** X3: every rejection carries one of the thirteen fixed messages of the
    rules, or "Unexpected token: ", "Unexpected token in term: " or
    "Invalid statement in block: " followed by the token at some cursor
    position of the input (the end-of-input token past its end). *)
Theorem X3_rejection_messages tokens msg :
  parse tokens = Printed (Rejected msg) -> Shape.known_message tokens msg.
Proof.
  unfold parse, parse_fuel. intros E.
  destruct (parse_try tokens (budget tokens) 0) as [[] p|[m|]|] eqn:Et;
    try discriminate E.
  injection E as <-.
  exact (ParserProps.meets_raised tokens _ _ m
           (ParserShape.parse_try_shape tokens (budget tokens)) Et).
Qed.

Lemma X3_witness :
  parse (scan "if (x { }") = Printed (Rejected "Missing ')' after if condition")
  /\ Shape.known_message (scan "if (x { }") "Missing ')' after if condition".
Proof.
  assert (H : parse (scan "if (x { }")
              = Printed (Rejected "Missing ')' after if condition"))
    by (vm_compute; reflexivity).
  split; [exact H|].
  exact (X3_rejection_messages (scan "if (x { }") _ H).
Defined.

(** X4: [if_statement], [while_loop], [for_loop] and [return_statement]
    never return [False]: they return [True] or raise. *)
Theorem X4_compound_rules_never_false tokens fuel pos :
  (forall b p, if_statement tokens fuel pos = Ok b p -> b = true)
  /\ (forall b p, while_loop tokens fuel pos = Ok b p -> b = true)
  /\ (forall b p, for_loop tokens fuel pos = Ok b p -> b = true)
  /\ (forall b p, return_statement tokens fuel pos = Ok b p -> b = true).
Proof.
  pose proof (ParserShape.statement_shape tokens fuel) as (_ & Hi & Hw & Hf & _).
  pose proof (ParserShape.return_statement_shape tokens fuel pos (Nat.le_0_l _)) as Hr.
  split; [|split; [|split]]; intros b p E.
  - exact (proj1 (ParserProps.meets_ok tokens _ _ b p (Hi pos (Nat.le_0_l _)) E)).
  - exact (proj1 (ParserProps.meets_ok tokens _ _ b p (Hw pos (Nat.le_0_l _)) E)).
  - exact (proj1 (ParserProps.meets_ok tokens _ _ b p (Hf pos (Nat.le_0_l _)) E)).
  - exact (proj1 (ParserProps.meets_ok tokens _ _ b p Hr E)).
Qed.

Lemma X4_witness :
  for_loop (scan "for (i = 0; i < 3; i = i + 1) { }") 40 0 = Ok true 18
  /\ true = true.
Proof.
  assert (H : for_loop (scan "for (i = 0; i < 3; i = i + 1) { }") 40 0 = Ok true 18)
    by (vm_compute; reflexivity).
  split; [exact H|].
  exact (proj1 (proj2 (proj2 (X4_compound_rules_never_false
                                (scan "for (i = 0; i < 3; i = i + 1) { }") 40 0)))
           true 18 H).
Defined.

(** X5: a statement returns [False] only when no rule applies to the
    current token, the cursor left where it was, or from [assignment]
    (current token an ID) or [declaration] (current token a type
    keyword). *)
Theorem X5_statement_false tokens fuel pos p :
  statement tokens fuel pos = Ok false p ->
  p = pos
  \/ Shape.kind_at tokens pos = "ID"
  \/ (Shape.kind_at tokens pos = "KEYWORD"
      /\ mem (snd (peek_at tokens pos)) Shape.type_keywords = true).
Proof.
  intros E. destruct (Nat.le_gt_cases pos (List.length tokens)) as [Hle|Hgt].
  - pose proof (ParserProps.meets_ok tokens _ _ false p
                  (proj1 (ParserShape.statement_shape tokens fuel) pos Hle) E)
      as (_ & _ & H).
    exact (H eq_refl).
  - left. apply (ParserProps.statement_past_end tokens fuel pos false p); [lia|exact E].
Qed.

Lemma X5_witness :
  statement (scan "x + 1;") 20 0 = Ok false 1
  /\ (1 = 0 \/ Shape.kind_at (scan "x + 1;") 0 = "ID"
      \/ (Shape.kind_at (scan "x + 1;") 0 = "KEYWORD"
          /\ mem (snd (peek_at (scan "x + 1;") 0)) Shape.type_keywords = true)).
Proof.
  assert (H : statement (scan "x + 1;") 20 0 = Ok false 1) by (vm_compute; reflexivity).
  split; [exact H|].
  exact (X5_statement_false (scan "x + 1;") 20 0 1 H).
Defined.

(** X6: [block] returns [False] exactly without moving, at a token that is
    not "{"; when it returns [True] it started at a "{", the last token
    it consumed is a "}", and the cursor is within the tokens. *)
Theorem X6_block_braces tokens fuel pos b p :
  block tokens fuel pos = Ok b p ->
  if b then Shape.kind_at tokens pos = "LBRACE"
            /\ Shape.kind_at tokens (p - 1) = "RBRACE"
            /\ pos + 2 <= p <= List.length tokens
  else p = pos /\ Shape.kind_at tokens pos <> "LBRACE".
Proof.
  intros E.
  exact (ParserProps.meets_ok tokens _ _ b p
           (proj1 (proj2 (proj2 (proj2 (proj2
              (ParserShape.statement_shape tokens fuel))))) pos (Nat.le_0_l _)) E).
Qed.

Lemma X6_witness :
  let tokens := scan "{ x = 1; if (x) { y = 2; } } z" in
  block tokens 40 0 = Ok true 16
  /\ Shape.kind_at tokens 0 = "LBRACE"
  /\ Shape.kind_at tokens (16 - 1) = "RBRACE"
  /\ 0 + 2 <= 16 <= List.length tokens.
Proof.
  assert (H : block (scan "{ x = 1; if (x) { y = 2; } } z") 40 0 = Ok true 16)
    by (vm_compute; reflexivity).
  split; [exact H|].
  exact (X6_block_braces (scan "{ x = 1; if (x) { y = 2; } } z") 40 0 true 16 H).
Defined.

(** X7: a token list whose first token is neither a KEYWORD nor an ID is
    rejected with "Unexpected token: " and that token. *)
Theorem X7_unexpected_first_token tok rest :
  mem (fst tok) ["KEYWORD"; "ID"] = false ->
  parse (tok :: rest) = Printed (Rejected ("Unexpected token: " ++ Py.repr_pair tok)).
Proof.
  intros H. unfold parse, parse_fuel.
  destruct (ParserProps.budget_S4 (tok :: rest)) as [f ->].
  rewrite (ParserProps.parse_try_miss _ _ 0).
  - rewrite (ParserProps.parse_while_reject _ _ 0 0);
      [reflexivity | cbn [List.length]; lia |].
    now apply ParserProps.statement_no_rule.
  - apply ParserProps.prologue_first_miss.
    change (peek_at (tok :: rest) 0) with tok.
    destruct tok as [k v]. cbn [fst snd mem existsb] in *.
    apply orb_false_iff in H as [-> _]. reflexivity.
Qed.

Lemma X7_witness :
  mem (fst ("NUMBER", "5")) ["KEYWORD"; "ID"] = false
  /\ parse (scan "5 = x;") = Printed (Rejected "Unexpected token: ('NUMBER', '5')").
Proof.
  split; [reflexivity|].
  exact (X7_unexpected_first_token ("NUMBER", "5") _ eq_refl).
Defined.

(** X8: the prologue of [parse] consumes a leading "int" also when no
    "main" follows, so a program that starts with the declaration
    "int x ;" is rejected at the ";" (the rest is read as an assignment),
    whatever the name and whatever follows, while the same declaration
    with float, double or bool is accepted. *)
Theorem X8_leading_int_declaration x rest :
  parse (("KEYWORD", "int") :: ("ID", x) :: ("SEMI", ";") :: rest)
  = Printed (Rejected "Unexpected token: ('SEMI', ';')")
  /\ Forall (fun t => parse [("KEYWORD", t); ("ID", x); ("SEMI", ";")]
                      = Printed Accepted)
       ["float"; "double"; "bool"].
Proof.
  split; [|repeat constructor].
  unfold parse, parse_fuel.
  destruct (ParserProps.budget_S4
              (("KEYWORD", "int") :: ("ID", x) :: ("SEMI", ";") :: rest)) as [f ->].
  rewrite (ParserProps.parse_try_miss _ _ 1) by reflexivity.
  rewrite (ParserProps.parse_while_reject _ _ 1 2);
    [reflexivity | cbn [List.length]; lia | reflexivity].
Qed.

(** X9: after "int main ( )" a token that is not "{" (or the end of the
    tokens) is rejected with "Missing block after main()". *)
Theorem X9_main_without_block rest :
  Shape.kind_at rest 0 <> "LBRACE" ->
  parse (("KEYWORD", "int") :: ("KEYWORD", "main") :: ("LPAREN", "(")
           :: ("RPAREN", ")") :: rest)
  = Printed (Rejected "Missing block after main()").
Proof.
  intros H. unfold parse, parse_fuel.
  destruct (ParserProps.budget_S4
              (("KEYWORD", "int") :: ("KEYWORD", "main") :: ("LPAREN", "(")
                 :: ("RPAREN", ")") :: rest)) as [f ->].
  rewrite (ParserProps.parse_try_main_no_block _ _ 4 4).
  - reflexivity.
  - reflexivity.
  - apply ParserProps.block_miss. exact H.
Qed.

Lemma X9_witness :
  Shape.kind_at (scan "x = 1;") 0 <> "LBRACE"
  /\ parse (scan "int main() x = 1;") = Printed (Rejected "Missing block after main()").
Proof.
  assert (H : Shape.kind_at (scan "x = 1;") 0 <> "LBRACE") by (vm_compute; discriminate).
  split; [exact H|].
  exact (X9_main_without_block (scan "x = 1;") H).
Defined.

(** X11: an operand followed by [n] pairs of a listed operator and an
    operand, and then by a token that is not an operator, is one
    expression, for every [n] and whatever the operators are:
    [expression] consumes all [2 * n + 1] tokens. *)
Theorem X11_operator_chain tokens n pos fuel :
  mem (Shape.kind_at tokens pos) Shape.atoms = true ->
  (forall i, i < n ->
             Shape.kind_at tokens (pos + 1 + 2 * i) = "OP"
             /\ mem (snd (peek_at tokens (pos + 1 + 2 * i))) binary_operators = true
             /\ mem (Shape.kind_at tokens (pos + 1 + 2 * i + 1)) Shape.atoms = true) ->
  Shape.kind_at tokens (pos + 1 + 2 * n) <> "OP" ->
  n + 2 <= fuel ->
  expression tokens fuel pos = Ok tt (pos + 2 * n + 1).
Proof.
  intros Ha Hops Hend Hf.
  destruct fuel as [|[|fuel]]; try lia.
  cbn [expression]. unfold bind.
  rewrite (ParserProps.term_atom tokens fuel pos Ha).
  rewrite (ParserProps.chain_while tokens n (pos + 1) (S fuel) Hops Hend) by lia.
  f_equal. lia.
Qed.

Lemma X11_witness :
  expression (scan "a + b * c <= d;") 5 0 = Ok tt (0 + 2 * 3 + 1).
Proof.
  apply (X11_operator_chain (scan "a + b * c <= d;") 3 0 5).
  - reflexivity.
  - intros i Hi. destruct i as [|[|[|i]]]; try lia; repeat split.
  - vm_compute. discriminate.
  - lia.
Defined.


(** * Further properties of the scanner *)
Module LangFacts.
Import Lang ReFacts ScannerFacts.

Lemma append_nil_r s : s ++ "" = s.
Proof. induction s as [|c s IH]; simpl; [reflexivity | now rewrite IH]. Qed.

Lemma append_assoc s t u : (s ++ t) ++ u = s ++ (t ++ u).
Proof. induction s as [|c s IH]; simpl; [reflexivity | now rewrite IH]. Qed.

Lemma length_append s t : String.length (s ++ t) = String.length s + String.length t.
Proof. induction s as [|c s IH]; simpl; [reflexivity | now rewrite IH]. Qed.

Lemma substring_prefix w r :
  substring 0 (String.length (w ++ r) - String.length r) (w ++ r) = w.
Proof.
  rewrite length_append.
  replace (String.length w + String.length r - String.length r)
    with (String.length w) by lia.
  induction w as [|c w IH]; simpl; [now destruct r | now rewrite IH].
Qed.

(** A successful run has read a text of the language of the pattern. *)
Lemma exec_lang r : forall s lg k x,
    exec r s lg k = Some x ->
    exists w s' lg', s = w ++ s' /\ matches r w /\ k s' lg' = Some x.
Proof.
  induction r as [|items|r1 IH1 r2 IH2|r1 IH1 r2 IH2|r IH|name r IH];
    intros s lg k x H; simpl in *.
  - exists "", s, lg. repeat split; [constructor | assumption].
  - destruct s as [|c s]; [discriminate|].
    destruct (in_class items c) eqn:E; [|discriminate].
    exists (String c ""), s, lg. repeat split; [now constructor | assumption].
  - apply IH1 in H as (w1 & s1 & lg1 & -> & M1 & H).
    apply IH2 in H as (w2 & s2 & lg2 & -> & M2 & H).
    exists (w1 ++ w2), s2, lg2. rewrite append_assoc.
    repeat split; [now constructor | assumption].
  - destruct (exec r1 s lg k) eqn:E1.
    + injection H as <-. apply IH1 in E1 as (w & s' & lg' & -> & M & H).
      exists w, s', lg'. repeat split; [now apply matches_alt_l | assumption].
    + apply IH2 in H as (w & s' & lg' & -> & M & H).
      exists w, s', lg'. repeat split; [now apply matches_alt_r | assumption].
  - revert H. generalize (String.length s) as n. intros n. revert s lg.
    induction n as [|n IHn]; intros s lg H; simpl in H.
    + exists "", s, lg. repeat split; [constructor | assumption].
    + destruct (exec r s lg _) eqn:E.
      * injection H as <-. apply IH in E as (w1 & s1 & lg1 & -> & M1 & H).
        destruct (String.length s1 <? String.length (w1 ++ s1))%nat; [|discriminate].
        apply IHn in H as (w2 & s2 & lg2 & -> & M2 & H).
        exists (w1 ++ w2), s2, lg2. rewrite append_assoc.
        repeat split; [now constructor | assumption].
      * exists "", s, lg. repeat split; [constructor | assumption].
  - apply IH in H as (w & s' & lg' & -> & M & H).
    exists w, s', name. repeat split; [now constructor | assumption].
Qed.

(** A match of the scanner's pattern: the rule whose group closed last
    has read a text of its language. *)
Lemma exec_named_lang spec specs : forall s lg k x,
    exec (alternatives (map named (spec :: specs))) s lg k = Some x ->
    exists name r w s',
      In (name, r) (spec :: specs) /\ s = w ++ s' /\ matches r w
      /\ k s' (Some name) = Some x.
Proof.
  revert spec. induction specs as [|spec' specs IH]; intros [name r] s lg k x H.
  - simpl in H. apply exec_lang in H as (w & s' & _ & -> & M & H).
    exists name, r, w, s'. simpl. auto.
  - change (exec (Alt (named (name, r)) (alternatives (map named (spec' :: specs))))
              s lg k = Some x) in H.
    simpl in H. destruct (exec r s lg _) eqn:E.
    + injection H as <-. apply exec_lang in E as (w & s' & _ & -> & M & H).
      exists name, r, w, s'. simpl. auto.
    + apply IH in H as (name' & r' & w & s' & Hin & -> & M & H).
      exists name', r', w, s'. repeat split; auto. now right.
Qed.

Lemma match_lang s lg rest :
  match_at token_regex s = Some (lg, rest) ->
  exists name r w,
    In (name, r) token_specification /\ lg = Some name
    /\ s = w ++ rest /\ matches r w.
Proof.
  unfold match_at. rewrite token_regex_named. unfold token_specification at 1.
  intros H. apply exec_named_lang in H as (name & r & w & s' & Hin & -> & M & H).
  injection H as <- <-. exists name, r, w. auto.
Qed.

(** Every token comes from a match of one rule on its lexeme. *)
Lemma scan_token_origin s : forall tok,
    In tok (scan s) ->
    exists name r w,
      In (name, r) token_specification /\ matches r w /\ In tok (emitted name w).
Proof.
  remember (String.length s) as n eqn:Hn. revert s Hn.
  induction n as [n IH] using lt_wf_ind. intros s Hn tok Hin.
  destruct s as [|c s]; [contradiction|].
  destruct (match_at token_regex (String c s)) as [[lg rest]|] eqn:E.
  - destruct (match_nonempty _ _ _ E) as [_ Hlen].
    destruct (match_lang _ _ _ E) as (name & r & w & Hspec & -> & Hs & M).
    rewrite (scan_match _ _ _ E), Hs, substring_prefix in Hin.
    apply in_app_or in Hin as [Hin|Hin]; [eauto 6|].
    apply (IH (String.length rest)) with (s := rest); auto. lia.
  - rewrite (scan_skip _ _ E) in Hin.
    apply (IH (String.length s)) with (s := s); auto. simpl in Hn. lia.
Qed.

Lemma matches_star_class items w :
  matches (Star (Cls items)) w -> all_in items w = true.
Proof.
  remember (Star (Cls items)) as r eqn:Hr. intros H.
  induction H as [| | | | | |r' w1 w2 H1 _ H2 IH2|]; try discriminate Hr.
  - reflexivity.
  - injection Hr as ->. inversion H1; subst. simpl.
    rewrite IH2 by reflexivity. now rewrite H0.
Qed.

Lemma skip_class_all items a r :
  all_in items a = true -> skip_class items (a ++ r) = skip_class items r.
Proof.
  induction a as [|c a IH]; simpl; [reflexivity|]. intros H.
  apply andb_true_iff in H as [-> H]. auto.
Qed.

Lemma skip_class_stop items r :
  starts_in items r = false -> skip_class items r = r.
Proof. destruct r as [|c r]; simpl; [reflexivity | now intros ->]. Qed.

Ltac invert_matches :=
  repeat match goal with
    | H : matches (Seq _ _) _ |- _ => inversion H; subst; clear H
    | H : matches (Alt _ _) _ |- _ => inversion H; subst; clear H
    | H : matches (Group _ _) _ |- _ => inversion H; subst; clear H
    | H : matches (Cls _) _ |- _ => inversion H; subst; clear H
    | H : matches Eps _ |- _ => inversion H; subst; clear H
    end.

Lemma in_class_cons i items c :
  in_class (i :: items) c = true ->
  item_matches i c = true \/ in_class items c = true.
Proof. unfold in_class. cbn [existsb]. apply orb_true_iff. Qed.

Lemma in_class_cons_false i items c :
  in_class (i :: items) c = false ->
  item_matches i c = false /\ in_class items c = false.
Proof. unfold in_class. cbn [existsb]. apply orb_false_iff. Qed.

Ltac class_cases :=
  repeat match goal with
    | H : in_class (Ch _ :: _) _ = true |- _ =>
        let H1 := fresh "Hc" in
        apply in_class_cons in H; destruct H as [H1|H1];
        [cbn [item_matches] in H1; apply Ascii.eqb_eq in H1; subst|]
    | H : in_class [] _ = true |- _ => discriminate H
    end.

Lemma in_class_single a c : in_class [Ch a] c = true -> c = a.
Proof.
  unfold in_class. cbn [existsb item_matches]. rewrite orb_false_r.
  intros H. apply Ascii.eqb_eq in H. now subst.
Qed.

Ltac single_facts :=
  repeat match goal with
    | H : in_class [Ch _] _ = true |- _ => apply in_class_single in H; subst
    end.

Ltac star_facts :=
  repeat match goal with
    | H : matches (Star (Cls _)) _ |- _ => apply matches_star_class in H
    end.

Lemma number_lexeme w :
  matches (Seq (Plus (Cls [Digit]))
             (Opt (Group None (Seq (Lit ".") (Star (Cls [Digit])))))) w ->
  is_number w = true.
Proof.
  unfold Plus, Opt, Lit. intros H. invert_matches; star_facts; single_facts.
  - match goal with
    | Hd : in_class [Digit] ?c0 = true,
      Ha : all_in _ ?a = true, Hb : all_in _ ?b = true |-
        is_number ((String ?c0 "" ++ ?a) ++ String "." "" ++ ?b) = true =>
        unfold is_number; cbn [append starts_in skip_class]; rewrite Hd;
        cbn [andb]; rewrite (skip_class_all _ a _ Ha);
        cbn; exact Hb
    end.
  - match goal with
    | Hd : in_class [Digit] ?c0 = true, Ha : all_in _ ?a = true |- _ =>
        unfold is_number; cbn [append starts_in skip_class]; rewrite Hd;
        cbn [andb]; now rewrite (skip_class_all _ a _ Ha)
    end.
Qed.

Lemma identifier_lexeme w :
  matches (Seq (Cls letters) (Star (Cls [Word]))) w -> is_identifier w = true.
Proof.
  intros H. invert_matches; star_facts.
  match goal with
  | Hc : in_class letters _ = true, Ha : all_in _ _ = true |- _ =>
      cbn [append is_identifier]; now rewrite Hc, Ha
  end.
Qed.

Lemma operator_lexeme w :
  matches (alternatives
             [Str "=="; Str "!="; Str "<="; Str ">="; Str "&&"; Str "||";
              Str "++"; Str "--";
              Cls [Ch "+"; Ch "-"; Ch "*"; Ch "/"; Ch "%"; Ch "="; Ch "<"; Ch ">"]]) w ->
  mem w operators = true.
Proof.
  cbn [alternatives Str]. unfold Lit. intros H.
  invert_matches; class_cases; reflexivity.
Qed.

Lemma literal_lexeme c w : matches (Lit c) w -> w = String c "".
Proof.
  unfold Lit. intros H. invert_matches. single_facts. reflexivity.
Qed.

(** Every token has one of the nine kinds and a lexeme of its shape. *)
Lemma scan_well_formed s tok : In tok (scan s) -> well_formed tok = true.
Proof.
  intros Hin.
  destruct (scan_token_origin s tok Hin) as (name & r & w & Hspec & M & Hem).
  unfold token_specification in Hspec. cbn [In] in Hspec.
  repeat destruct Hspec as [Hspec|Hspec]; try contradiction;
    injection Hspec as <- <-; unfold emitted in Hem; cbn [String.eqb Ascii.eqb Bool.eqb andb mem existsb orb] in Hem;
    try contradiction.
  - destruct Hem as [<-|[]].
    change (is_number w = true). now apply number_lexeme.
  - apply identifier_lexeme in M.
    destruct (mem w keywords) eqn:Hk; destruct Hem as [<-|[]].
    + exact Hk.
    + change (is_identifier w && negb (mem w keywords) = true).
      now rewrite M, Hk.
  - destruct Hem as [<-|[]].
    change (mem w operators = true). now apply operator_lexeme.
  - destruct Hem as [<-|[]]. apply literal_lexeme in M. now subst.
  - destruct Hem as [<-|[]]. apply literal_lexeme in M. now subst.
  - destruct Hem as [<-|[]]. apply literal_lexeme in M. now subst.
  - destruct Hem as [<-|[]]. apply literal_lexeme in M. now subst.
  - destruct Hem as [<-|[]]. apply literal_lexeme in M. now subst.
Qed.

(** A greedy repetition of a class, before a continuation that cannot
    fail, reads the longest run of characters of the class. *)
Lemma star_loop_class items (k : cont) :
  (forall s lg, k s lg <> None) ->
  forall n s lg, String.length s <= n ->
                 star_loop (exec (Cls items)) k n s lg = k (skip_class items s) lg.
Proof.
  intros Hk. induction n as [|n IH]; intros s lg Hn.
  - destruct s; [reflexivity | simpl in Hn; lia].
  - destruct s as [|c s]; [reflexivity|]. cbn [star_loop exec skip_class].
    destruct (in_class items c); [|reflexivity].
    destruct (Nat.ltb_spec (String.length s) (String.length (String c s)));
      [|simpl in *; lia].
    rewrite IH by (simpl in Hn; lia).
    destruct (k (skip_class items s) lg) eqn:E; [reflexivity | now apply Hk in E].
Qed.

Lemma exec_star_class items s lg (k : cont) :
  (forall s lg, k s lg <> None) ->
  exec (Star (Cls items)) s lg k = k (skip_class items s) lg.
Proof. intros Hk. cbn [exec]. now apply star_loop_class. Qed.

(** At a letter or underscore rule ID reads the whole run of word
    characters. *)
Lemma match_identifier c s :
  in_class letters c = true ->
  match_at token_regex (String c s) = Some (Some "ID", skip_class [Word] s).
Proof.
  intros H. unfold match_at. rewrite token_regex_named.
  cbn [token_specification map named alternatives].
  rewrite exec_alt_skip; [|now apply letter_not_number|reflexivity].
  apply exec_alt_take. cbn [exec]. unfold letters in H. rewrite H.
  change (exec (Star (Cls [Word])) s None (fun s' _ => Some (Some "ID", s'))
          = Some (Some "ID", skip_class [Word] s)).
  now rewrite exec_star_class.
Qed.

(** At a space or a tab rule SKIP reads the whole run of spaces and tabs. *)
Lemma match_spaces c s :
  in_class [Ch " "; Ch "009"] c = true ->
  match_at token_regex (String c s)
  = Some (Some "SKIP", skip_class [Ch " "; Ch "009"] s).
Proof.
  intros H. unfold match_at. rewrite token_regex_named.
  cbn [token_specification map named alternatives].
  assert (Hc : c = " "%char \/ c = "009"%char).
  { apply in_class_cons in H as [H|H]; [left|right].
    - cbn [item_matches] in H. apply Ascii.eqb_eq in H. now subst.
    - apply in_class_single in H. now subst. }
  destruct Hc; subst c; do 8 (rewrite exec_alt_skip by reflexivity);
    apply exec_alt_take; cbn [exec Plus]; rewrite H;
    match goal with
    | |- star_loop _ ?k _ s None = _ =>
        change (exec (Star (Cls [Ch " "; Ch "009"])) s None k
                = Some (Some "SKIP", skip_class [Ch " "; Ch "009"] s))
    end;
    now rewrite exec_star_class.
Qed.

Lemma match_newline s :
  match_at token_regex (String "010" s) = Some (Some "NEWLINE", s).
Proof.
  unfold match_at. rewrite token_regex_named.
  cbn [token_specification map named alternatives].
  do 9 (rewrite exec_alt_skip by reflexivity). reflexivity.
Qed.

Lemma exec_seq r1 r2 s lg k :
  exec (Seq r1 r2) s lg k = exec r1 s lg (fun s' lg' => exec r2 s' lg' k).
Proof. reflexivity. Qed.

Lemma exec_group name r s lg k :
  exec (Group name r) s lg k = exec r s lg (fun s' _ => k s' name).
Proof. reflexivity. Qed.

Lemma exec_cls_hit items c s lg k :
  in_class items c = true -> exec (Cls items) (String c s) lg k = k s lg.
Proof. intros H. cbn [exec]. now rewrite H. Qed.

Lemma exec_opt_total r (k : cont) :
  (forall s lg, k s lg <> None) -> forall s lg, exec (Opt r) s lg k <> None.
Proof.
  intros Hk s lg. unfold Opt. cbn [exec].
  destruct (exec r s lg k); [discriminate | apply Hk].
Qed.

(** At a digit rule NUMBER reads the digits and, after them, a dot with
    its digits. *)
Lemma match_number c s :
  in_class [Digit] c = true ->
  match_at token_regex (String c s) = Some (Some "NUMBER", number_rest s).
Proof.
  intros H. unfold match_at. rewrite token_regex_named.
  cbn [token_specification map named alternatives].
  apply exec_alt_take. unfold Plus.
  rewrite exec_group, !exec_seq, exec_cls_hit by assumption.
  rewrite exec_star_class by (intros; apply exec_opt_total; discriminate).
  unfold number_rest. destruct (skip_class [Digit] s) as [|c' r]; [reflexivity|].
  destruct (in_class [Ch "."] c') eqn:Hd.
  - unfold Opt, Lit. apply exec_alt_take.
    rewrite exec_group, exec_seq, exec_cls_hit by assumption.
    now rewrite exec_star_class by discriminate.
  - unfold Opt, Lit. cbn [exec]. now rewrite Hd.
Qed.

Lemma emitted_length kind w : List.length (emitted kind w) <= 1.
Proof.
  unfold emitted. destruct ((kind =? "ID") && mem w keywords); [simpl; lia|].
  destruct (mem kind ["SKIP"; "NEWLINE"]); simpl; lia.
Qed.

Lemma scan_length s : List.length (scan s) <= String.length s.
Proof.
  remember (String.length s) as n eqn:Hn. revert s Hn.
  induction n as [n IH] using lt_wf_ind. intros s Hn.
  destruct s as [|c s]; [simpl; lia|].
  destruct (match_at token_regex (String c s)) as [[lg rest]|] eqn:E.
  - destruct (lastgroup_named _ _ _ E) as (g & -> & _).
    destruct (match_nonempty _ _ _ E) as [_ Hlen].
    rewrite (scan_match _ _ _ E), length_app.
    pose proof (emitted_length g
                  (substring 0 (String.length (String c s) - String.length rest)
                     (String c s))).
    pose proof (IH (String.length rest) ltac:(lia) rest eq_refl). lia.
  - rewrite (scan_skip _ _ E).
    pose proof (IH (String.length s) ltac:(simpl in Hn; lia) s eq_refl).
    simpl in Hn. lia.
Qed.

Lemma scan_spaces c s :
  in_class [Ch " "; Ch "009"] c = true ->
  scan (String c s) = scan (skip_class [Ch " "; Ch "009"] s).
Proof. intros H. now rewrite (scan_match _ _ _ (match_spaces c s H)). Qed.

Lemma scan_skip_spaces s : scan (skip_class [Ch " "; Ch "009"] s) = scan s.
Proof.
  induction s as [|c s IH]; [reflexivity|]. cbn [skip_class].
  destruct (in_class [Ch " "; Ch "009"] c) eqn:E; [|reflexivity].
  now rewrite (scan_spaces c s E).
Qed.

Lemma scan_blank c s : is_blank c = true -> scan (String c s) = scan s.
Proof.
  unfold is_blank. intros H. apply orb_true_iff in H as [H|H].
  - rewrite scan_spaces, scan_skip_spaces; [reflexivity|].
    apply orb_true_iff in H as [H|H]; apply Ascii.eqb_eq in H; now subst.
  - apply Ascii.eqb_eq in H. subst.
    now rewrite (scan_match _ _ _ (match_newline s)).
Qed.

End LangFacts.

(** X12: every token that [tokenize] produces has one of the nine kinds
    NUMBER, ID, KEYWORD, OP, SEMI, LPAREN, RPAREN, LBRACE, RBRACE (never
    SKIP, NEWLINE or EOF) and a lexeme of the shape of its kind: digits
    with at most one dot after them for NUMBER, a letter or underscore and
    word characters, not a keyword, for ID, a keyword for KEYWORD, one of
    the sixteen operators for OP, the one character for the others. *)
Theorem X12_tokens_well_formed s tok :
  In tok (scan s) -> Lang.well_formed tok = true.
Proof. apply LangFacts.scan_well_formed. Qed.

Lemma X12_witness :
  In ("NUMBER", "3.14") (scan "pi = 3.14;")
  /\ Lang.well_formed ("NUMBER", "3.14") = true.
Proof.
  assert (H : In ("NUMBER", "3.14") (scan "pi = 3.14;")) by (vm_compute; auto).
  split; [exact H|].
  exact (X12_tokens_well_formed "pi = 3.14;" ("NUMBER", "3.14") H).
Defined.

(** X13: an identifier is read whole: a letter or underscore, the word
    characters after it, up to the first character that is not a word
    character, make one token, of kind KEYWORD when the text is a keyword
    and ID otherwise; the rest is scanned on its own. *)
Theorem X13_identifier_read_whole c w rest :
  in_class Lang.letters c = true ->
  Lang.all_in [Word] w = true ->
  Lang.starts_in [Word] rest = false ->
  scan (String c w ++ rest)
  = (if mem (String c w) keywords then "KEYWORD" else "ID", String c w) :: scan rest.
Proof.
  intros Hc Hw Hr.
  pose proof (LangFacts.match_identifier c (w ++ rest) Hc) as E.
  rewrite LangFacts.skip_class_all, LangFacts.skip_class_stop in E by assumption.
  change (String c w ++ rest) with (String c (w ++ rest)).
  rewrite (ScannerFacts.scan_match _ _ _ E).
  change (String c (w ++ rest)) with (String c w ++ rest).
  rewrite LangFacts.substring_prefix. unfold Spec.emitted.
  cbn [String.eqb Ascii.eqb Bool.eqb andb].
  now destruct (mem (String c w) keywords).
Qed.

Lemma X13_witness :
  scan ("while_1" ++ "=x") = ("ID", "while_1") :: scan "=x".
Proof.
  exact (X13_identifier_read_whole "w" "hile_1" "=x" eq_refl eq_refl eq_refl).
Defined.

(** X14: a number is read whole: a digit and the digits after it make one
    NUMBER token when neither a digit nor a dot follows; with a dot after
    them, the dot and the digits that follow it (none, too) belong to the
    same token. *)
Theorem X14_number_read_whole c a :
  in_class [Digit] c = true ->
  Lang.all_in [Digit] a = true ->
  (forall rest, Lang.starts_in [Digit; Ch "."] rest = false ->
                scan (String c a ++ rest) = ("NUMBER", String c a) :: scan rest)
  /\ (forall b rest,
         Lang.all_in [Digit] b = true ->
         Lang.starts_in [Digit] rest = false ->
         scan ((String c a ++ String "." b) ++ rest)
         = ("NUMBER", String c a ++ String "." b) :: scan rest).
Proof.
  intros Hc Ha. split.
  - intros rest Hr.
    pose proof (LangFacts.match_number c (a ++ rest) Hc) as E.
    unfold Lang.number_rest in E.
    rewrite LangFacts.skip_class_all in E by assumption.
    assert (Hrest : match Lang.skip_class [Digit] rest with
                    | "" => ""
                    | String c' r =>
                        if in_class [Ch "."] c' then Lang.skip_class [Digit] r
                        else String c' r
                    end = rest).
    { destruct rest as [|c' r]; [reflexivity|].
      cbn [Lang.starts_in] in Hr. apply LangFacts.in_class_cons_false in Hr as [Hd Hp].
      cbn [Lang.skip_class]. unfold in_class at 1. cbn [existsb].
      rewrite Hd. cbn [orb]. now rewrite Hp. }
    rewrite Hrest in E.
    change (String c a ++ rest) with (String c (a ++ rest)).
    rewrite (ScannerFacts.scan_match _ _ _ E).
    change (String c (a ++ rest)) with (String c a ++ rest).
    now rewrite LangFacts.substring_prefix.
  - intros b rest Hb Hr.
    pose proof (LangFacts.match_number c (a ++ String "." b ++ rest) Hc) as E.
    unfold Lang.number_rest in E.
    rewrite LangFacts.skip_class_all in E by assumption.
    cbn [append Lang.skip_class] in E.
    change (in_class [Digit] ".") with false in E.
    change (in_class [Ch "."] ".") with true in E. cbv iota in E.
    rewrite LangFacts.skip_class_all, LangFacts.skip_class_stop in E by assumption.
    rewrite LangFacts.append_assoc.
    change (String c a ++ String "." b ++ rest)
      with (String c (a ++ String "." (b ++ rest))).
    rewrite (ScannerFacts.scan_match _ _ _ E).
    change (String c (a ++ String "." (b ++ rest)))
      with (String c a ++ String "." b ++ rest).
    rewrite <- LangFacts.append_assoc.
    now rewrite LangFacts.substring_prefix.
Qed.

Lemma X14_witness :
  scan ("12" ++ "+x") = ("NUMBER", "12") :: scan "+x"
  /\ scan (("12" ++ ".50") ++ ".7") = ("NUMBER", "12" ++ ".50") :: scan ".7".
Proof.
  split.
  - exact (proj1 (X14_number_read_whole "1" "2" eq_refl eq_refl) "+x" eq_refl).
  - exact (proj2 (X14_number_read_whole "1" "2" eq_refl eq_refl)
             "50" ".7" eq_refl eq_refl).
Defined.

(** X15: spaces, tabs and newlines before a text do not change its
    tokens. *)
Theorem X15_leading_whitespace_ignored ws s :
  whitespace_only ws = true -> scan (ws ++ s) = scan s.
Proof.
  induction ws as [|c ws IH]; [reflexivity|]. cbn [whitespace_only append].
  intros H. apply andb_true_iff in H as [Hc Hws].
  rewrite (LangFacts.scan_blank c (ws ++ s) Hc). now apply IH.
Qed.

Lemma X15_witness :
  scan (String "010" (String "009" " ") ++ "x=1") = scan "x=1".
Proof.
  exact (X15_leading_whitespace_ignored (String "010" (String "009" " ")) "x=1" eq_refl).
Defined.

(** X16: [tokenize] appends to the tokens the scanner already holds: the
    result is [self.tokens] followed by the tokens of the code, so a
    second call on the same scanner returns the tokens of the code
    twice. *)
Theorem X16_tokenize_appends self :
  tokenize self = (Scanner.tokens self ++ scan (Scanner.code self))%list
  /\ tokenize (Lang.after_tokenize self)
     = (Scanner.tokens self ++ scan (Scanner.code self)
          ++ scan (Scanner.code self))%list.
Proof.
  assert (H : forall sc, tokenize sc
                         = (Scanner.tokens sc ++ scan (Scanner.code sc))%list).
  { intros sc. unfold tokenize, scan, init. cbn [Scanner.code Scanner.tokens].
    apply ScannerFacts.tokenize_loop_app. }
  split; [apply H|].
  rewrite H. unfold Lang.after_tokenize. cbn [Scanner.code Scanner.tokens].
  now rewrite H, app_assoc.
Qed.

(** X17: [tokenize] produces at most one token for each character of the
    code. *)
Theorem X17_token_count s : List.length (scan s) <= String.length s.
Proof. apply LangFacts.scan_length. Qed.


(** * The scanner works line by line *)
Module LinesFacts.
Import Lines Lang ReFacts ScannerFacts LangFacts.

Lemma one_line_suffix t s : suffix t s -> one_line s = true -> one_line t = true.
Proof.
  unfold one_line. induction 1 as [|c s Hts IH]; [auto|]. cbn [Py.contains].
  intros H. apply negb_true_iff, orb_false_iff in H as [_ H].
  apply IH. now rewrite H.
Qed.

(** The result of a run depends on its continuation only at the suffixes
    of the text. *)
Lemma exec_ext r : forall s lg (k1 k2 : cont),
    (forall s' lg', suffix s' s -> k1 s' lg' = k2 s' lg') ->
    exec r s lg k1 = exec r s lg k2.
Proof.
  induction r as [|items|r1 IH1 r2 IH2|r1 IH1 r2 IH2|r IH|name r IH];
    intros s lg k1 k2 H; cbn [exec].
  - apply H. constructor.
  - destruct s as [|c s]; [reflexivity|].
    destruct (in_class items c); [|reflexivity]. apply H. repeat constructor.
  - apply IH1. intros s' lg' Hs'. apply IH2. intros s'' lg'' Hs''.
    apply H. eapply suffix_trans; eassumption.
  - rewrite (IH1 s lg k1 k2 H), (IH2 s lg k1 k2 H). reflexivity.
  - generalize (String.length s) as n. intros n. revert s lg H.
    induction n as [|n IHn]; intros s lg H; cbn [star_loop].
    + apply H. constructor.
    + rewrite (H s lg (suffix_here s)).
      erewrite IH; [reflexivity|]. intros s' lg' Hs'. cbv beta.
      destruct (String.length s' <? String.length s)%nat; [|reflexivity].
      apply IHn. intros s'' lg'' Hs''. apply H. eapply suffix_trans; eassumption.
  - apply IH. intros s' lg' Hs'. now apply H.
Qed.

(** Mapping the answer of the continuation maps the answer of the run. *)
Lemma exec_map g r : forall s lg (k : cont),
    exec r s lg (fun s' lg' => option_map g (k s' lg'))
    = option_map g (exec r s lg k).
Proof.
  induction r as [|items|r1 IH1 r2 IH2|r1 IH1 r2 IH2|r IH|name r IH];
    intros s lg k; cbn [exec].
  - reflexivity.
  - destruct s as [|c s]; [reflexivity|]. now destruct (in_class items c).
  - rewrite <- IH1. apply exec_ext. intros s' lg' _. apply IH2.
  - rewrite IH1, IH2. now destruct (exec r1 s lg k).
  - generalize (String.length s) as n. intros n. revert s lg.
    induction n as [|n IHn]; intros s lg; cbn [star_loop]; [reflexivity|].
    erewrite exec_ext.
    + rewrite (IH s lg (fun s' lg' =>
                          if (String.length s' <? String.length s)%nat
                          then star_loop (exec r) k n s' lg' else None)).
      destruct (exec r s lg _); reflexivity.
    + intros s' lg' _. cbv beta.
      destruct (String.length s' <? String.length s)%nat; [apply IHn | reflexivity].
  - apply (IH s lg (fun s' _ => k s' name)).
Qed.

(** A repetition needs no more budget than the length of the text. *)
Lemma star_loop_stable r (k : cont) : forall n m s lg,
    String.length s <= n -> String.length s <= m ->
    star_loop (exec r) k n s lg = star_loop (exec r) k m s lg.
Proof.
  assert (Hnil : forall m lg, star_loop (exec r) k m "" lg = k "" lg).
  { intros [|m] lg; cbn [star_loop]; [reflexivity|].
    destruct (exec r "" lg _) as [x|] eqn:E; [|reflexivity].
    apply exec_sound in E as (s' & lg' & E & _). discriminate E. }
  induction n as [|n IH]; intros m s lg Hn Hm.
  - destruct s; [|simpl in Hn; lia]. now rewrite !Hnil.
  - destruct m as [|m].
    { destruct s; [|simpl in Hm; lia]. now rewrite !Hnil. }
    cbn [star_loop]. erewrite exec_ext; [reflexivity|].
    intros s' lg' _. cbv beta.
    destruct (Nat.ltb_spec (String.length s') (String.length s)); [|reflexivity].
    apply IH; lia.
Qed.

Section Local.
Variable c : ascii.
Variable b : string.
Let t := String c b.

(** A pattern that avoids [c] reads a text free of [c] in the same way
    whether the text ends there or goes on with [c]. *)
Lemma exec_local r :
  avoids c r = true ->
  forall a lg (k : cont),
    Py.contains c a = false ->
    exec r (a ++ t) lg k = exec r a lg (fun s' lg' => k (s' ++ t) lg').
Proof.
  assert (Hsuf : forall a s', suffix s' a -> Py.contains c a = false ->
                              Py.contains c s' = false).
  { intros a s' Hs. induction Hs as [|c' s Hs IH]; [auto|]. cbn [Py.contains].
    intros H. apply orb_false_iff in H as [_ H]. auto. }
  induction r as [|items|r1 IH1 r2 IH2|r1 IH1 r2 IH2|r IH|name r IH];
    cbn [avoids]; intros Hav a lg k Ha; cbn [exec].
  - reflexivity.
  - apply negb_true_iff in Hav. destruct a as [|c' a']; cbn [append].
    + unfold t. now rewrite Hav.
    + reflexivity.
  - apply andb_true_iff in Hav as [H1 H2].
    rewrite (IH1 H1 a lg _ Ha). apply exec_ext. intros s' lg' Hs'.
    apply (IH2 H2). eapply Hsuf; eassumption.
  - apply andb_true_iff in Hav as [H1 H2].
    now rewrite (IH1 H1 a lg k Ha), (IH2 H2 a lg k Ha).
  - rewrite (star_loop_stable r (fun s' lg' => k (s' ++ t) lg')
               (String.length a) (String.length (a ++ t)) a lg)
      by (rewrite ?length_append; lia).
    generalize (String.length (a ++ t)) as n. intros n. revert a lg Ha.
    induction n as [|n IHn]; intros a lg Ha; cbn [star_loop]; [reflexivity|].
    rewrite (IH Hav a lg _ Ha).
    erewrite exec_ext; [reflexivity|]. intros s' lg' Hs'. cbv beta.
    rewrite !length_append.
    destruct (Nat.ltb_spec (String.length s') (String.length a));
      destruct (Nat.ltb_spec (String.length s' + String.length t)
                  (String.length a + String.length t)); try lia; [|reflexivity].
    apply IHn. eapply Hsuf; eassumption.
  - apply (IH Hav a lg (fun s' _ => k s' name) Ha).
Qed.

End Local.

Lemma exec_alt_eq r1 r2 s lg k :
  exec (Alt r1 r2) s lg k
  = match exec r1 s lg k with Some m => Some m | None => exec r2 s lg k end.
Proof. reflexivity. Qed.

Lemma newline_rule_fails c s lg k :
  c <> newline -> exec (Group (Some "NEWLINE") (Lit "010")) (String c s) lg k = None.
Proof.
  intros H. apply exec_first_none; [|reflexivity].
  cbn [first Lit]. unfold in_class. cbn [existsb item_matches].
  rewrite orb_false_r. apply Ascii.eqb_neq. intros E. now subst.
Qed.

(** On a line that is not empty, the scanner's pattern matches in the
    same way whether the text ends with the line or goes on with a
    newline. *)
Lemma token_regex_local c a b lg (k : cont) :
  one_line (String c a) = true ->
  exec token_regex (String c a ++ String newline b) lg k
  = exec token_regex (String c a) lg (fun s' lg' => k (s' ++ String newline b) lg').
Proof.
  intros H.
  assert (Hc : c <> newline).
  { unfold one_line in H. cbn [Py.contains] in H.
    apply negb_true_iff, orb_false_iff in H as [H _].
    apply Ascii.eqb_neq in H. congruence. }
  assert (Ha : Py.contains newline (String c a) = false)
    by now apply negb_true_iff in H.
  rewrite token_regex_named.
  cbn [token_specification map named alternatives]. rewrite !exec_alt_eq.
  change (String c a ++ String newline b) with (String c (a ++ String newline b)) at 10.
  rewrite !(newline_rule_fails c _ _ _ Hc).
  repeat (rewrite (exec_local newline b) by (reflexivity || exact Ha)).
  reflexivity.
Qed.

Lemma match_at_line c a b :
  one_line (String c a) = true ->
  match_at token_regex (String c a ++ String newline b)
  = option_map (fun '(lg, r) => (lg, r ++ String newline b))
      (match_at token_regex (String c a)).
Proof.
  intros H. unfold match_at. rewrite <- exec_map.
  now rewrite token_regex_local.
Qed.

(** The tokens of a line followed by a newline and more text are the
    tokens of the line followed by the tokens of that text. *)
Lemma scan_line a : forall b,
    one_line a = true ->
    scan (a ++ String newline b) = (scan a ++ scan b)%list.
Proof.
  remember (String.length a) as n eqn:Hn. revert a Hn.
  induction n as [n IH] using lt_wf_ind. intros a Hn b Ha.
  destruct a as [|c a].
  { cbn [append]. now rewrite (scan_blank newline b). }
  pose proof (match_at_line c a b Ha) as E.
  destruct (match_at token_regex (String c a)) as [[lg r]|] eqn:Em;
    cbn [option_map] in E.
  - destruct (lastgroup_named _ _ _ Em) as (g & -> & _).
    destruct (match_nonempty _ _ _ Em) as [Hsuf Hlen].
    destruct (match_lang _ _ _ Em) as (name & rx & w & _ & _ & Hw & _).
    rewrite (scan_match _ _ _ E), (scan_match _ _ _ Em).
    rewrite Hw, append_assoc, !substring_prefix, <- app_assoc. f_equal.
    apply (IH (String.length r)); [lia | reflexivity |].
    now apply (one_line_suffix r (String c a)).
  - change (String c a ++ String newline b)
      with (String c (a ++ String newline b)) in *.
    rewrite (scan_skip _ _ E), (scan_skip _ _ Em).
    apply (IH (String.length a)); [simpl in Hn; lia | reflexivity |].
    apply (one_line_suffix a (String c a)); [repeat constructor | assumption].
Qed.

Lemma scan_join lines :
  forallb one_line lines = true ->
  scan (join lines) = concat (map scan lines).
Proof.
  induction lines as [|line lines IH]; [reflexivity|].
  cbn [forallb map concat]. intros H. apply andb_true_iff in H as [Hl Hls].
  destruct lines as [|line' lines].
  - cbn [join map concat]. now rewrite app_nil_r.
  - change (join (line :: line' :: lines))
      with (line ++ String newline (join (line' :: lines))).
    rewrite (scan_line line _ Hl). f_equal. now apply IH.
Qed.

End LinesFacts.

(** X18: the scanner works line by line: the tokens of lines joined by
    newlines are the tokens of the first line, then those of the second,
    and so on; no token spans a newline and none depends on the lines
    around it. *)
Theorem X18_tokens_line_by_line lines :
  forallb Lines.one_line lines = true ->
  scan (Lines.join lines) = concat (map scan lines).
Proof. exact (LinesFacts.scan_join lines). Qed.

Lemma X18_witness :
  scan (Lines.join ["int x = 1;"; "while (x <"; "3) { x = x + 1; }"])
  = concat (map scan ["int x = 1;"; "while (x <"; "3) { x = x + 1; }"]).
Proof.
  exact (X18_tokens_line_by_line
           ["int x = 1;"; "while (x <"; "3) { x = x + 1; }"] eq_refl).
Defined.

(** * The main program *)
Module MainFacts.
Import Main.

Lemma lstrip_spaces ws s : all_space ws = true -> lstrip (ws ++ s) = lstrip s.
Proof.
  induction ws as [|c ws IH]; [reflexivity|].
  cbn [all_space append lstrip]. intros H.
  apply andb_true_iff in H as [-> H]. auto.
Qed.

Lemma rstrip_all_space ws : all_space ws = true -> rstrip ws = "".
Proof.
  induction ws as [|c ws IH]; [reflexivity|].
  cbn [all_space rstrip]. intros H.
  apply andb_true_iff in H as [-> H]. now rewrite IH.
Qed.

Lemma rstrip_spaces ws s : all_space ws = true -> rstrip (s ++ ws) = rstrip s.
Proof.
  intros H. induction s as [|c s IH].
  - cbn [append rstrip]. now apply rstrip_all_space.
  - cbn [append rstrip]. now rewrite IH.
Qed.

Lemma lstrip_split s :
  exists ws, all_space ws = true /\ s = ws ++ lstrip s.
Proof.
  induction s as [|c s (ws & Hws & E)].
  - now exists "".
  - cbn [lstrip]. destruct (is_space c) eqn:Hc.
    + exists (String c ws). cbn [all_space append]. rewrite Hc, Hws.
      split; [reflexivity | now rewrite <- E].
    + now exists "".
Qed.

Lemma rstrip_split s :
  exists ws, all_space ws = true /\ s = rstrip s ++ ws.
Proof.
  induction s as [|c s (ws & Hws & E)].
  - now exists "".
  - cbn [rstrip]. destruct (rstrip s) as [|c' r] eqn:Er.
    + cbn [append] in E. subst ws. destruct (is_space c) eqn:Hc.
      * exists (String c s). cbn [all_space append]. now rewrite Hc, Hws.
      * exists s. now split.
    + exists ws. split; [assumption|]. cbn [append]. f_equal. exact E.
Qed.

Lemma input_loop_first_end before : forall lines e after,
    forallb goes_on before = true -> ends_input e = true ->
    input_loop lines (before ++ e :: after)%list
    = Some ((lines ++ before)%list, after).
Proof.
  induction before as [|l before IH]; intros lines e after Hb He.
  - cbn [app input_loop]. now rewrite He, app_nil_r.
  - cbn [forallb] in Hb. apply andb_true_iff in Hb as [Hl Hb].
    apply negb_true_iff in Hl.
    cbn [app input_loop]. rewrite Hl, (IH _ _ _ Hb He).
    now rewrite <- app_assoc.
Qed.

Lemma input_loop_no_end stdin : forall lines,
    forallb goes_on stdin = true -> input_loop lines stdin = None.
Proof.
  induction stdin as [|l stdin IH]; intros lines H; [reflexivity|].
  cbn [forallb] in H. apply andb_true_iff in H as [Hl H].
  apply negb_true_iff in Hl. cbn [input_loop]. rewrite Hl. now apply IH.
Qed.

End MainFacts.

(** X19: a line ends the input exactly when it is the word END with
    nothing but whitespace before and after it. *)
Theorem X19_end_line line :
  Main.ends_input line = true
  <-> exists ws ws',
      Main.all_space ws = true /\ Main.all_space ws' = true
      /\ line = ws ++ "END" ++ ws'.
Proof.
  unfold Main.ends_input, Main.strip. rewrite String.eqb_eq. split.
  - intros H.
    destruct (MainFacts.lstrip_split line) as (ws & Hws & E).
    destruct (MainFacts.rstrip_split (Main.lstrip line)) as (ws' & Hws' & E').
    exists ws, ws'. repeat split; try assumption.
    rewrite H in E'. now rewrite <- E'.
  - intros (ws & ws' & Hws & Hws' & ->).
    rewrite (MainFacts.lstrip_spaces _ _ Hws).
    change ("END" ++ ws') with (String "E" (String "N" (String "D" ws'))).
    cbn [Main.lstrip]. change (Main.is_space "E") with false. cbv iota.
    change (String "E" (String "N" (String "D" ws'))) with ("END" ++ ws').
    now rewrite (MainFacts.rstrip_spaces _ _ Hws').
Qed.

Lemma X19_witness : Main.ends_input (String "009" " END  ") = true.
Proof.
  apply (proj2 (X19_end_line (String "009" " END  "))).
  exists (String "009" " "), "  ". repeat split.
Defined.

(** X20: the program reads its input up to the first END line and no
    further: the lines before it become the code, and whatever follows
    changes nothing in what the program prints or how it ends. *)
Theorem X20_input_until_first_end before e after :
  forallb Main.goes_on before = true ->
  Main.ends_input e = true ->
  Main.input_loop [] (before ++ e :: after)%list = Some (before, after)
  /\ Main.main (before ++ e :: after)%list = Main.main (before ++ [e])%list.
Proof.
  intros Hb He. split.
  - exact (MainFacts.input_loop_first_end before [] e after Hb He).
  - unfold Main.main.
    now rewrite !(MainFacts.input_loop_first_end before [] e _ Hb He).
Qed.

Lemma X20_witness :
  Main.input_loop [] (["int x;"; "x = 1;"] ++ " END" :: ["y = 2;"; "END"])%list
  = Some (["int x;"; "x = 1;"], ["y = 2;"; "END"])
  /\ Main.main (["int x;"; "x = 1;"] ++ " END" :: ["y = 2;"; "END"])%list
     = Main.main (["int x;"; "x = 1;"] ++ [" END"])%list.
Proof.
  exact (X20_input_until_first_end
           ["int x;"; "x = 1;"] " END" ["y = 2;"; "END"] eq_refl eq_refl).
Defined.

(** X21: when no line of the input is an END line, the program prints its
    prompt and nothing else, and ends with [EOFError]: nothing is scanned
    or parsed. *)
Theorem X21_no_end_line stdin :
  forallb Main.goes_on stdin = true ->
  Main.main stdin = {| Main.printed := [Main.prompt]; Main.ended := Main.EOFError |}.
Proof.
  intros H. unfold Main.main.
  now rewrite (MainFacts.input_loop_no_end stdin [] H).
Qed.

Lemma X21_witness :
  Main.main ["int x = 1;"; "end"; "END;"]
  = {| Main.printed := [Main.prompt]; Main.ended := Main.EOFError |}.
Proof.
  exact (X21_no_end_line ["int x = 1;"; "end"; "END;"] eq_refl).
Defined.

(** * The parser on the call stack *)
Module StackFacts.

(** ** With room on the stack, the rules end as those of [Parser] *)

Lemma sim_weaken {A} (safe safe' : Prop) (m : M A) (m' : Stack.M A) :
  (safe' -> safe) -> Stack.sim safe m m' -> Stack.sim safe' m m'.
Proof.
  intros Hs H pos. specialize (H pos).
  destruct (m' pos); auto.
Qed.

Lemma sim_bind {A B} safe (m : M A) (m' : Stack.M A)
  (k : A -> M B) (k' : A -> Stack.M B) :
  Stack.sim safe m m' -> (forall a, Stack.sim safe (k a) (k' a)) ->
  Stack.sim safe (bind m k) (Stack.bind m' k').
Proof.
  intros Hm Hk pos. unfold bind, Stack.bind. specialize (Hm pos).
  destruct (m' pos) as [a' q'|e' q'|q'|]; unfold Stack.agrees in Hm.
  - destruct (m pos) as [a q|e|]; try contradiction.
    destruct Hm as [-> ->]. apply Hk.
  - destruct (m pos) as [a q|e|]; try contradiction. exact Hm.
  - exact Hm.
  - destruct (m pos) as [a q|e|]; try contradiction. exact I.
Qed.

Lemma sim_ret {A} safe (a : A) : Stack.sim safe (ret a) (Stack.ret a).
Proof. intros pos. simpl. auto. Qed.

Lemma sim_raise {A} safe msg : Stack.sim safe (@raise A msg) (Stack.raise msg).
Proof. intros pos. reflexivity. Qed.

Lemma sim_timeout {A} safe : Stack.sim safe (@timeout A) Stack.timeout.
Proof. intros pos. exact I. Qed.

Lemma sim_call {A} (safe : Prop) depth (m : M A) (body : nat -> Stack.M A) :
  (safe -> 1 <= depth) ->
  (forall d, depth = S d -> Stack.sim safe m (body d)) ->
  Stack.sim safe m (Stack.call depth body).
Proof.
  intros Hs H pos. unfold Stack.call. destruct depth as [|d].
  - intros Hsafe. specialize (Hs Hsafe). lia.
  - now apply H.
Qed.

Section Sim.
Variable tokens : list token.

Lemma sim_peek d : Stack.sim (1 <= d) (peek tokens) (Stack.peek tokens d).
Proof.
  apply sim_call; [auto|]. intros d' _ pos. simpl. auto.
Qed.

Lemma sim_advance d : Stack.sim (1 <= d) advance (Stack.advance d).
Proof.
  apply sim_call; [auto|]. intros d' _ pos. simpl. auto.
Qed.

Lemma sim_match d ty v :
  Stack.sim (2 <= d) (match_ tokens ty v) (Stack.match_ tokens d ty v).
Proof.
  apply sim_call; [lia|]. intros d' ->. unfold match_.
  apply sim_bind.
  - apply (sim_weaken (1 <= d')); [lia | apply sim_peek].
  - intros [ty' v']. destruct (_ && _).
    + apply sim_bind; [|intros _; apply sim_ret].
      apply (sim_weaken (1 <= d')); [lia | apply sim_advance].
    + apply sim_ret.
Qed.

Lemma sim_previous safe : Stack.sim safe (previous tokens) (Stack.previous tokens).
Proof.
  intros pos. unfold previous, Stack.previous.
  destruct (Py.getitem _ _); simpl; auto.
Qed.

Ltac simulate :=
  repeat first
    [ apply sim_ret | apply sim_raise | apply sim_timeout | apply sim_previous
    | match goal with
      | |- Stack.sim _ (peek _) (Stack.peek _ ?d) =>
          apply (sim_weaken (1 <= d)); [lia | apply sim_peek]
      | |- Stack.sim _ advance (Stack.advance ?d) =>
          apply (sim_weaken (1 <= d)); [lia | apply sim_advance]
      | |- Stack.sim _ (match_ _ _ _) (Stack.match_ _ ?d _ _) =>
          apply (sim_weaken (2 <= d)); [lia | apply sim_match]
      | H : forall d, Stack.sim _ _ _ |- Stack.sim _ _ _ =>
          eapply sim_weaken; [|apply H]; lia
      | |- Stack.sim _ (bind _ _) (Stack.bind _ _) => apply sim_bind; [|intros ?]
      | |- Stack.sim _ (if ?b then _ else _) _ => destruct b
      | |- Stack.sim _ (let '(_, _) := ?t in _) _ => destruct t
      end ].

Ltac enter := apply sim_call; [lia | intros ? ->].

Lemma expression_sim fuel :
  (forall depth, Stack.sim (fuel + 2 <= depth)
                   (expression tokens fuel) (Stack.expression tokens fuel depth))
  /\ (forall d, Stack.sim (fuel + 2 <= d)
                  (expression_while tokens fuel) (Stack.expression_while tokens fuel d))
  /\ (forall depth, Stack.sim (fuel + 2 <= depth)
                      (term tokens fuel) (Stack.term tokens fuel depth)).
Proof.
  induction fuel as [|fuel (IHe & IHw & IHt)].
  { repeat split; intros; apply sim_timeout. }
  repeat split; intros depth; cbn [expression expression_while term
    Stack.expression Stack.expression_while Stack.term].
  - enter. simulate.
  - simulate.
  - enter. simulate.
Qed.

Lemma declaration_sim fuel depth :
  Stack.sim (fuel + 3 <= depth)
    (declaration tokens fuel) (Stack.declaration tokens fuel depth).
Proof.
  destruct (expression_sim fuel) as (He & _ & _).
  unfold declaration, Stack.declaration. enter. simulate.
Qed.

Lemma assignment_sim fuel depth :
  Stack.sim (fuel + 3 <= depth)
    (assignment tokens fuel) (Stack.assignment tokens fuel depth).
Proof.
  destruct (expression_sim fuel) as (He & _ & _).
  unfold assignment, Stack.assignment. enter. simulate.
Qed.

Lemma return_statement_sim fuel depth :
  Stack.sim (fuel + 3 <= depth)
    (return_statement tokens fuel) (Stack.return_statement tokens fuel depth).
Proof.
  destruct (expression_sim fuel) as (He & _ & _).
  unfold return_statement, Stack.return_statement. enter. simulate.
Qed.

Lemma statement_sim fuel :
  (forall depth, Stack.sim (fuel + 3 <= depth)
                   (statement tokens fuel) (Stack.statement tokens fuel depth))
  /\ (forall depth, Stack.sim (fuel + 3 <= depth)
                      (if_statement tokens fuel) (Stack.if_statement tokens fuel depth))
  /\ (forall depth, Stack.sim (fuel + 3 <= depth)
                      (while_loop tokens fuel) (Stack.while_loop tokens fuel depth))
  /\ (forall depth, Stack.sim (fuel + 3 <= depth)
                      (for_loop tokens fuel) (Stack.for_loop tokens fuel depth))
  /\ (forall depth, Stack.sim (fuel + 3 <= depth)
                      (block tokens fuel) (Stack.block tokens fuel depth))
  /\ (forall d, Stack.sim (fuel + 3 <= d)
                  (block_while tokens fuel) (Stack.block_while tokens fuel d)).
Proof.
  induction fuel as [|fuel (IHs & IHi & IHw & IHf & IHb & IHbw)].
  { repeat split; intros; apply sim_timeout. }
  destruct (expression_sim fuel) as (He & _ & _).
  pose proof (declaration_sim fuel) as Hd.
  pose proof (assignment_sim fuel) as Ha.
  pose proof (return_statement_sim fuel) as Hr.
  repeat split; intros depth;
    cbn [statement if_statement while_loop for_loop block block_while
         Stack.statement Stack.if_statement Stack.while_loop Stack.for_loop
         Stack.block Stack.block_while];
    try enter; simulate.
Qed.

Lemma parse_while_sim fuel : forall d,
    Stack.sim (fuel + 3 <= d)
      (parse_while tokens fuel) (Stack.parse_while tokens fuel d).
Proof.
  induction fuel as [|fuel IH]; intros d; [apply sim_timeout|].
  destruct (statement_sim fuel) as (Hs & _).
  cbn [parse_while Stack.parse_while]. intros pos.
  destruct (pos <? List.length tokens)%nat.
  - revert pos. change (Stack.sim (S fuel + 3 <= d)
      (b <- statement tokens fuel ;;
       if negb b then
         tok <- peek tokens ;; raise ("Unexpected token: " ++ Py.repr_pair tok)
       else parse_while tokens fuel)
      (Stack.bind (Stack.statement tokens fuel d)
         (fun b => if negb b then
            Stack.bind (Stack.peek tokens d)
              (fun tok => Stack.raise ("Unexpected token: " ++ Py.repr_pair tok))
          else Stack.parse_while tokens fuel d))).
    simulate.
  - simpl. auto.
Qed.

Lemma parse_try_sim fuel d :
  Stack.sim (fuel + 3 <= d) (parse_try tokens fuel) (Stack.parse_try tokens fuel d).
Proof.
  destruct (statement_sim fuel) as (_ & _ & _ & _ & Hb & _).
  pose proof (parse_while_sim fuel) as Hw.
  unfold parse_try, Stack.parse_try, main_prologue, Stack.main_prologue,
    and_, Stack.and_.
  simulate.
Qed.

End Sim.

(** ** What a rule reads lies before the cursor it leaves *)


Lemma agree_sym a b q : Stack.agree a b q -> Stack.agree b a q.
Proof. unfold Stack.agree. auto. Qed.


Lemma peek_at_nth tokens pos : peek_at tokens pos = nth pos tokens ("EOF", "").
Proof.
  unfold peek_at. destruct (Nat.ltb_spec pos (List.length tokens)); [reflexivity|].
  now rewrite nth_overflow.
Qed.




Section Follows.
Variables a b : list token.



















End Follows.

(** ** A message blames the cursor at the raise *)

Section Blamed.
Variable tokens : list token.
















End Blamed.

(** ** [parse] on the stack *)

(** [parse] prints the verdict of [Parser.parse], or lets
    [RecursionError] through; the latter only when the stack is short of
    [budget tokens + 4] frames. *)
Lemma parse_outcome depth tokens :
  (exists o pos, Stack.parse depth tokens = Stack.Printed o pos
                 /\ parse tokens = Printed o)
  \/ (depth < budget tokens + 4
      /\ exists pos, Stack.parse depth tokens = Stack.Overflow pos).
Proof.
  unfold Stack.parse, Stack.parse_fuel, parse, parse_fuel.
  destruct depth as [|d].
  { right. split; [lia | now exists 0]. }
  pose proof (parse_try_sim tokens (budget tokens) d 0) as Hs.
  pose proof (ParserFacts.parse_try_budget tokens (budget tokens) (le_n _)) as Hb.
  destruct (Stack.parse_try tokens (budget tokens) d 0) as [[] p|e p|p|];
    unfold Stack.agrees in Hs;
    destruct (parse_try tokens (budget tokens) 0) as [[] p'|e'|];
    try contradiction.
  - destruct Hs as [_ ->]. left. now exists Accepted, p.
  - subst e'. destruct e as [msg|]; [|contradiction].
    left. now exists (Rejected msg), p.
  - right. split; [lia | now exists p].
  - right. split; [lia | now exists p].
Qed.

(** ** Nested parentheses *)

Lemma match_short tokens d ty v pos :
  d < 2 -> Stack.match_ tokens d ty v pos = Stack.RecursionError pos.
Proof.
  intros H. destruct d as [|[|d]]; [reflexivity | reflexivity | lia].
Qed.

Lemma match_on_stack tokens d ty pos :
  2 <= d -> Shape.kind_at tokens pos = ty ->
  Stack.match_ tokens d ty None pos = Stack.Ok true (pos + 1).
Proof.
  intros Hd. destruct d as [|[|d]]; try lia.
  cbv [Shape.kind_at Stack.match_ Stack.call Stack.peek Stack.advance
       Stack.bind Stack.ret].
  destruct (peek_at tokens pos) as [k v]. cbn [fst]. intros ->.
  now rewrite String.eqb_refl.
Qed.

Lemma miss_on_stack tokens d ty pos :
  2 <= d -> Shape.kind_at tokens pos <> ty ->
  Stack.match_ tokens d ty None pos = Stack.Ok false pos.
Proof.
  intros Hd. destruct d as [|[|d]]; try lia.
  cbv [Shape.kind_at Stack.match_ Stack.call Stack.peek Stack.advance
       Stack.bind Stack.ret].
  destruct (peek_at tokens pos) as [k v]. cbn [fst]. intros H.
  destruct (String.eqb_spec k ty); [contradiction | reflexivity].
Qed.

Lemma atom_on_stack tokens fuel depth pos :
  mem (Shape.kind_at tokens pos) Shape.atoms = true ->
  Stack.term tokens (S fuel) depth pos
  = if (2 <=? depth)%nat then Stack.Ok tt (pos + 1) else Stack.RecursionError pos.
Proof.
  intros H. unfold Shape.kind_at, Shape.atoms in H.
  destruct depth as [|[|d]]; [reflexivity | reflexivity |].
  cbn [Stack.term]. cbv [Stack.call Stack.peek Stack.bind].
  now rewrite H.
Qed.

(** [term] at an opening parenthesis: what the calls inside it do on a
    stack of [S (S d)] free frames. *)
Lemma paren_on_stack tokens fuel d pos :
  Shape.kind_at tokens pos = "LPAREN" ->
  Stack.term tokens (S fuel) (S (S (S d))) pos
  = Stack.bind (Stack.expression tokens fuel (S (S d)))
      (fun _ =>
         Stack.bind (Stack.match_ tokens (S (S d)) "RPAREN" None)
           (fun b' => if negb b' then Stack.raise "Missing closing parenthesis"
                      else Stack.ret tt))
      (pos + 1).
Proof.
  intros Hl. cbn [Stack.term]. unfold Stack.call.
  unfold Stack.bind at 1. unfold Stack.peek at 1. unfold Stack.call.
  unfold Shape.kind_at in Hl. rewrite Hl.
  cbn [mem existsb String.eqb Ascii.eqb Bool.eqb orb].
  unfold Stack.bind at 1.
  now rewrite (match_on_stack tokens (S (S d)) "LPAREN" pos) by (lia || exact Hl).
Qed.

Lemma paren_short_stack tokens fuel depth pos :
  Shape.kind_at tokens pos = "LPAREN" -> depth < 3 ->
  Stack.term tokens (S fuel) depth pos = Stack.RecursionError pos.
Proof.
  intros Hl Hd. destruct depth as [|[|[|d]]]; try lia; try reflexivity.
  cbn [Stack.term]. unfold Stack.call.
  unfold Stack.bind at 1. unfold Stack.peek at 1. unfold Stack.call.
  unfold Shape.kind_at in Hl. rewrite Hl.
  cbn [mem existsb String.eqb Ascii.eqb Bool.eqb orb].
  unfold Stack.bind at 1. now rewrite match_short by lia.
Qed.

Lemma while_stop_on_stack tokens fuel d pos :
  2 <= d -> Shape.kind_at tokens pos <> "OP" ->
  Stack.expression_while tokens (S fuel) d pos = Stack.Ok tt pos.
Proof.
  intros Hd H. cbn [Stack.expression_while]. unfold Stack.bind.
  now rewrite (miss_on_stack tokens d "OP" pos Hd H).
Qed.

(** An operand inside [n] pairs of parentheses is one term when the
    stack has [2 * n + 2] free frames, and overflows the stack when it
    has fewer. *)
Lemma nested_on_stack tokens n : forall pos fuel depth,
    (forall i, i < n -> Shape.kind_at tokens (pos + i) = "LPAREN") ->
    mem (Shape.kind_at tokens (pos + n)) Shape.atoms = true ->
    (forall i, i < n -> Shape.kind_at tokens (pos + n + 1 + i) = "RPAREN") ->
    2 * n + 1 <= fuel ->
    (2 * n + 2 <= depth ->
     Stack.term tokens fuel depth pos = Stack.Ok tt (pos + 2 * n + 1))
    /\ (depth < 2 * n + 2 ->
        exists q, Stack.term tokens fuel depth pos = Stack.RecursionError q).
Proof.
  induction n as [|n IH]; intros pos fuel depth Hl Ha Hr Hf.
  - destruct fuel as [|fuel]; [lia|].
    rewrite Nat.add_0_r in *. rewrite (atom_on_stack tokens fuel depth pos Ha).
    split; intros Hd.
    + destruct (Nat.leb_spec 2 depth); [reflexivity | lia].
    + destruct (Nat.leb_spec 2 depth); [lia | now exists pos].
  - destruct fuel as [|[|fuel]]; try lia.
    assert (Hl0 : Shape.kind_at tokens pos = "LPAREN").
    { specialize (Hl 0). rewrite Nat.add_0_r in Hl. apply Hl. lia. }
    assert (Hrn : Shape.kind_at tokens (pos + 2 * n + 2) = "RPAREN").
    { specialize (Hr n). replace (pos + S n + 1 + n) with (pos + 2 * n + 2) in Hr by lia.
      apply Hr. lia. }
    destruct (Nat.lt_ge_cases depth 3) as [Hd3|Hd3].
    { split; [lia|]. intros _. exists pos. now apply paren_short_stack. }
    destruct depth as [|[|[|d]]]; try lia.
    rewrite (paren_on_stack tokens (S fuel) d pos Hl0).
    cbn [Stack.expression]. unfold Stack.call, Stack.bind.
    destruct (IH (pos + 1) fuel (S d)) as [IHok IHbad].
    + intros i Hi. replace (pos + 1 + i) with (pos + S i) by lia. apply Hl. lia.
    + replace (pos + 1 + n) with (pos + S n) by lia. exact Ha.
    + intros i Hi. replace (pos + 1 + n + 1 + i) with (pos + S n + 1 + i) by lia.
      apply Hr. lia.
    + lia.
    + split; intros Hd.
      * rewrite IHok by lia.
        replace (pos + 1 + 2 * n + 1) with (pos + 2 * n + 2) by lia.
        destruct fuel as [|fuel]; [lia|].
        rewrite while_stop_on_stack; [|lia|rewrite Hrn; discriminate].
        rewrite (match_on_stack tokens (S (S d)) "RPAREN" _) by (lia || exact Hrn).
        cbn [negb]. unfold Stack.ret. f_equal. lia.
      * destruct IHbad as [q Hq]; [lia|]. rewrite Hq. now exists q.
Qed.

Lemma kind_assign_nested n :
  (forall i, i < n -> Shape.kind_at (Stack.assign_nested n) (2 + i) = "LPAREN")
  /\ mem (Shape.kind_at (Stack.assign_nested n) (2 + n)) Shape.atoms = true
  /\ (forall i, i < n -> Shape.kind_at (Stack.assign_nested n) (2 + n + 1 + i) = "RPAREN")
  /\ Shape.kind_at (Stack.assign_nested n) (2 * n + 3) = "SEMI"
  /\ List.length (Stack.assign_nested n) = 2 * n + 4.
Proof.
  assert (Hn : List.length (Stack.nested n ("NUMBER", "1")) = 2 * n + 1).
  { unfold Stack.nested. rewrite length_app. cbn [List.length].
    rewrite !repeat_length. lia. }
  assert (Hnth : forall i,
             Shape.kind_at (Stack.assign_nested n) (2 + i)
             = fst (nth i (Stack.nested n ("NUMBER", "1") ++ [("SEMI", ";")])%list
                      ("EOF", ""))).
  { intros i. unfold Shape.kind_at. now rewrite peek_at_nth. }
  repeat match goal with |- _ /\ _ => split end.
  - intros i Hi. rewrite Hnth, app_nth1 by lia. unfold Stack.nested.
    rewrite app_nth1 by (rewrite repeat_length; lia).
    now rewrite (nth_repeat_lt _ _ Hi).
  - rewrite Hnth, app_nth1 by lia. unfold Stack.nested.
    rewrite app_nth2 by (rewrite repeat_length; lia).
    rewrite repeat_length, Nat.sub_diag. reflexivity.
  - intros i Hi. replace (2 + n + 1 + i) with (2 + (n + 1 + i)) by lia.
    rewrite Hnth, app_nth1 by lia. unfold Stack.nested.
    rewrite app_nth2 by (rewrite repeat_length; lia).
    rewrite repeat_length. replace (n + 1 + i - n) with (S i) by lia.
    cbn [nth]. now rewrite (nth_repeat_lt _ _ Hi).
  - replace (2 * n + 3) with (2 + (2 * n + 1)) by lia.
    rewrite Hnth, app_nth2 by lia. rewrite Hn, Nat.sub_diag. reflexivity.
  - unfold Stack.assign_nested. cbn [List.length]. rewrite length_app, Hn.
    cbn [List.length]. lia.
Qed.

Lemma bind_ok {A B} (m : Stack.M A) (k : A -> Stack.M B) pos a p :
  m pos = Stack.Ok a p -> Stack.bind m k pos = k a p.
Proof. unfold Stack.bind. now intros ->. Qed.

Lemma bind_overflow {A B} (m : Stack.M A) (k : A -> Stack.M B) pos q :
  m pos = Stack.RecursionError q -> Stack.bind m k pos = Stack.RecursionError q.
Proof. unfold Stack.bind. now intros ->. Qed.

(** [statement] at an identifier followed by [=]: the calls down to
    [term], on a stack of [S (S (S (S d)))] free frames. *)
Lemma statement_assign tokens fuel d pos v :
  peek_at tokens pos = ("ID", v) ->
  peek_at tokens (pos + 1) = ("OP", "=") ->
  Stack.statement tokens (S (S (S fuel))) (S (S (S (S d)))) pos
  = Stack.bind (Stack.term tokens (S fuel) (S d))
      (fun _ =>
         Stack.bind (Stack.expression_while tokens (S fuel) (S d))
           (fun _ =>
              Stack.bind (Stack.match_ tokens (S (S d)) "SEMI" None)
                (fun b' => if b' then Stack.ret true else Stack.ret false)))
      (pos + 1 + 1).
Proof.
  intros H0 H1. cbn [Stack.statement]. unfold Stack.call at 1.
  rewrite (bind_ok (Stack.peek tokens (S (S (S d)))) _ pos (peek_at tokens pos) pos eq_refl).
  rewrite H0. cbn [String.eqb Ascii.eqb Bool.eqb andb].
  unfold Stack.assignment, Stack.call at 1.
  rewrite (bind_ok (Stack.advance (S (S d))) _ pos tt (pos + 1) eq_refl).
  assert (Hm : Stack.match_ tokens (S (S d)) "OP" (Some "=") (pos + 1)
               = Stack.Ok true (pos + 1 + 1)).
  { cbv [Stack.match_ Stack.call Stack.peek Stack.advance Stack.bind Stack.ret].
    now rewrite H1. }
  rewrite (bind_ok _ _ _ _ _ Hm).
  cbn [Stack.expression]. unfold Stack.call at 1.
  unfold Stack.bind. now destruct (Stack.term tokens (S fuel) (S d) (pos + 1 + 1)).
Qed.

Lemma parse_while_end tokens fuel d pos :
  List.length tokens <= pos -> Stack.parse_while tokens (S fuel) d pos = Stack.Ok tt pos.
Proof.
  intros H. cbn [Stack.parse_while].
  destruct (Nat.ltb_spec pos (List.length tokens)); [lia | reflexivity].
Qed.

Lemma parse_while_step tokens fuel d pos :
  pos < List.length tokens ->
  Stack.parse_while tokens (S fuel) d pos
  = Stack.bind (Stack.statement tokens fuel d)
      (fun b => if negb b then
                  Stack.bind (Stack.peek tokens d)
                    (fun tok => Stack.raise ("Unexpected token: " ++ Py.repr_pair tok))
                else Stack.parse_while tokens fuel d) pos.
Proof.
  intros H. cbn [Stack.parse_while].
  destruct (Nat.ltb_spec pos (List.length tokens)); [reflexivity | lia].
Qed.

(** [x = (...(1)...);] with [n] pairs of parentheses is accepted when
    [2 * n + 6] frames are free for [parse], and overflows the stack
    when fewer are. *)
Lemma parse_assign_nested n depth :
  (2 * n + 6 <= depth ->
   Stack.parse depth (Stack.assign_nested n) = Stack.Printed Accepted (2 * n + 4))
  /\ (depth < 2 * n + 6 ->
      exists q, Stack.parse depth (Stack.assign_nested n) = Stack.Overflow q).
Proof.
  destruct (kind_assign_nested n) as (Hl & Ha & Hr & Hs & Hlen).
  unfold Stack.parse, Stack.parse_fuel.
  assert (Hf : exists f, budget (Stack.assign_nested n) = S (S (S (S (S f))))
                         /\ 2 * n + 1 <= f).
  { exists (4 * n + 7). unfold budget. rewrite Hlen. lia. }
  destruct Hf as (f & -> & Hf).
  destruct depth as [|[|[|[|[|d]]]]].
  1-5: split; [lia | intros _; eexists; reflexivity].
  destruct (nested_on_stack (Stack.assign_nested n) n 2 (S (S f)) (S d) Hl Ha Hr)
    as [Hok Hbad];
    [lia|].
  assert (Hp : Stack.main_prologue (Stack.assign_nested n) (S (S (S (S d)))) 0
               = Stack.Ok false 0) by reflexivity.
  unfold Stack.parse_try.
  rewrite (bind_ok _ _ _ _ _ Hp).
  rewrite (bind_ok (Stack.ret tt) _ 0 tt 0 eq_refl).
  rewrite parse_while_step by lia.
  pose proof (statement_assign (Stack.assign_nested n) (S f) d 0 "x" eq_refl eq_refl)
    as Hst.
  cbn [Nat.add] in Hst.
  split; intros Hd.
  - rewrite (bind_ok _ _ _ _ _ (Hok ltac:(lia))) in Hst.
    replace (2 + 2 * n + 1) with (2 * n + 3) in Hst by lia.
    rewrite (bind_ok _ _ _ _ _ (while_stop_on_stack _ (S f) (S d) (2 * n + 3)
                                  ltac:(lia) ltac:(rewrite Hs; discriminate))) in Hst.
    rewrite (bind_ok _ _ _ _ _ (match_on_stack _ (S (S d)) "SEMI" (2 * n + 3)
                                  ltac:(lia) Hs)) in Hst.
    unfold Stack.ret in Hst.
    rewrite (bind_ok _ _ _ _ _ Hst). cbn [negb].
    rewrite parse_while_end by lia. cbn [Stack.finish]. f_equal. lia.
  - destruct Hbad as [q Hq]; [lia|]. exists q.
    rewrite (bind_overflow _ _ _ _ Hq) in Hst.
    now rewrite (bind_overflow _ _ _ _ Hst).
Qed.






End StackFacts.

(** * The claims and properties that depend on the recursion limit *)

(** ** C6: parse and the recursion limit *)



(** X10: an operand inside [n] pairs of parentheses is one term exactly
    when the stack has room for it: with [2 * n + 2] free frames or more
    [term] consumes all [2 * n + 1] tokens, with fewer it ends in
    [RecursionError]. *)
Theorem X10_nested_parentheses tokens n pos fuel depth :
  (forall i, i < n -> Shape.kind_at tokens (pos + i) = "LPAREN") ->
  mem (Shape.kind_at tokens (pos + n)) Shape.atoms = true ->
  (forall i, i < n -> Shape.kind_at tokens (pos + n + 1 + i) = "RPAREN") ->
  2 * n + 1 <= fuel ->
  (2 * n + 2 <= depth ->
   Stack.term tokens fuel depth pos = Stack.Ok tt (pos + 2 * n + 1))
  /\ (depth < 2 * n + 2 ->
      exists q, Stack.term tokens fuel depth pos = Stack.RecursionError q).
Proof. exact (StackFacts.nested_on_stack tokens n pos fuel depth). Qed.

Lemma X10_witness :
  Stack.term (scan "x = (((y))) + 1;") 7 8 2 = Stack.Ok tt (2 + 2 * 3 + 1)
  /\ exists q, Stack.term (scan "x = (((y))) + 1;") 7 7 2 = Stack.RecursionError q.
Proof.
  assert (Hl : forall i, i < 3 ->
                 Shape.kind_at (scan "x = (((y))) + 1;") (2 + i) = "LPAREN").
  { intros i Hi. destruct i as [|[|[|i]]]; try lia; reflexivity. }
  assert (Hr : forall i, i < 3 ->
                 Shape.kind_at (scan "x = (((y))) + 1;") (2 + 3 + 1 + i) = "RPAREN").
  { intros i Hi. destruct i as [|[|[|i]]]; try lia; reflexivity. }
  split.
  - apply (X10_nested_parentheses (scan "x = (((y))) + 1;") 3 2 7 8 Hl eq_refl Hr);
      lia.
  - apply (X10_nested_parentheses (scan "x = (((y))) + 1;") 3 2 7 7 Hl eq_refl Hr);
      lia.
Defined.

(** X22: once an END line is read the program prints the prompt, the
    header, the tokens of the first line, then those of the second, and
    so on up to the END line.  Then it prints one verdict of the parser
    on these tokens and returns; or, only when fewer than
    [2 * len(tokens) + 8] frames are free for [parse], it ends in
    [RecursionError] and prints no verdict. *)
Theorem X22_listing_line_by_line depth before e after :
  forallb Lines.one_line before = true ->
  forallb Main.goes_on before = true ->
  Main.ends_input e = true ->
  (exists o pos,
      Stack.parse depth (concat (map scan before)) = Stack.Printed o pos
      /\ Stack.main depth (before ++ e :: after)%list
         = {| Stack.printed :=
                (Main.prompt :: Main.tokens_header
                   :: concat (map (fun line => map Py.repr_pair (scan line)) before)
                   ++ [stdout o])%list;
              Stack.ended := Stack.Returned |})
  \/ (depth < 2 * List.length (concat (map scan before)) + 8
      /\ Stack.main depth (before ++ e :: after)%list
         = {| Stack.printed :=
                Main.prompt :: Main.tokens_header
                  :: concat (map (fun line => map Py.repr_pair (scan line)) before);
              Stack.ended := Stack.Overflowed |}).
Proof.
  intros Hl Hb He. unfold Stack.main.
  rewrite (MainFacts.input_loop_first_end before [] e after Hb He).
  cbn [app]. rewrite (LinesFacts.scan_join before Hl).
  rewrite concat_map, map_map.
  destruct (StackFacts.parse_outcome depth (concat (map scan before)))
    as [(o & pos & E & _)|(Hd & pos & E)].
  - left. exists o, pos. split; [exact E|]. now rewrite E.
  - right. split; [unfold budget in Hd; lia|]. now rewrite E.
Qed.

Lemma X22_witness :
  (exists o pos,
      Stack.parse 40 (concat (map scan ["int x"; "= ((1));"])) = Stack.Printed o pos
      /\ Stack.main 40 (["int x"; "= ((1));"] ++ "END" :: ["y"])%list
         = {| Stack.printed :=
                (Main.prompt :: Main.tokens_header
                   :: concat (map (fun line => map Py.repr_pair (scan line))
                                ["int x"; "= ((1));"])
                   ++ [stdout o])%list;
              Stack.ended := Stack.Returned |})
  \/ (40 < 2 * List.length (concat (map scan ["int x"; "= ((1));"])) + 8
      /\ Stack.main 40 (["int x"; "= ((1));"] ++ "END" :: ["y"])%list
         = {| Stack.printed :=
                Main.prompt :: Main.tokens_header
                  :: concat (map (fun line => map Py.repr_pair (scan line))
                               ["int x"; "= ((1));"]);
              Stack.ended := Stack.Overflowed |}).
Proof.
  exact (X22_listing_line_by_line 40 ["int x"; "= ((1));"] "END" ["y"]
           eq_refl eq_refl eq_refl).
Defined.

(** X23: the verdicts stated for [Parser.parse], which bounds its calls by
    a budget that grows with the tokens, are those of [parse] on the call
    stack: whenever the latter prints a verdict it is the same one, and
    it prints one whenever [2 * len(tokens) + 8] frames are free. *)
Theorem X23_verdict_with_room depth tokens :
  (forall o pos, Stack.parse depth tokens = Stack.Printed o pos ->
                 parse tokens = Printed o)
  /\ (2 * List.length tokens + 8 <= depth ->
      exists o pos, Stack.parse depth tokens = Stack.Printed o pos
                    /\ parse tokens = Printed o).
Proof.
  destruct (StackFacts.parse_outcome depth tokens)
    as [(o & pos & E & E')|(Hd & pos & E)]; split.
  - intros o' pos' E2. rewrite E in E2. now injection E2 as <- _.
  - intros _. now exists o, pos.
  - intros o' pos' E2. rewrite E in E2. discriminate E2.
  - intros H. unfold budget in Hd. lia.
Qed.

Lemma X23_witness :
  exists o pos,
    Stack.parse 30 (scan "int x = (5;") = Stack.Printed o pos
    /\ parse (scan "int x = (5;") = Printed o.
Proof.
  apply (proj2 (X23_verdict_with_room 30 (scan "int x = (5;"))).
  vm_compute. lia.
Defined.

(** X24: how deep parentheses may nest: the tokens of [x = (...(1)...);]
    with [n] pairs of parentheses are accepted when [2 * n + 6] frames are
    free for [parse], and with fewer free frames [parse] ends in
    [RecursionError]; so for every recursion limit some finite input
    overflows the stack. *)
Theorem X24_nesting_limit n depth :
  (2 * n + 6 <= depth ->
   Stack.parse depth (Stack.assign_nested n) = Stack.Printed Accepted (2 * n + 4))
  /\ (depth < 2 * n + 6 ->
      exists q, Stack.parse depth (Stack.assign_nested n) = Stack.Overflow q)
  /\ exists q, Stack.parse depth (Stack.assign_nested depth) = Stack.Overflow q.
Proof.
  destruct (StackFacts.parse_assign_nested n depth) as [Hok Hbad].
  split; [exact Hok|]. split; [exact Hbad|].
  apply (StackFacts.parse_assign_nested depth depth). lia.
Qed.

Lemma X24_witness :
  Stack.parse 12 (Stack.assign_nested 3) = Stack.Printed Accepted (2 * 3 + 4)
  /\ exists q, Stack.parse 11 (Stack.assign_nested 3) = Stack.Overflow q.
Proof.
  split.
  - apply (proj1 (X24_nesting_limit 3 12)). lia.
  - apply (proj1 (proj2 (X24_nesting_limit 3 11))). lia.
Defined.
